(** * CogniRead: the scoring and psychometric normalisation engine

    A shallow embedding of [services/scoringService.ts] together with the
    tables of [constants.ts] it reads ([STOPWORDS_PT_BR], [STOPWORDS_EN_US],
    [NORMATIVE_PROFILES]) and the records of [types.ts].

    - JavaScript numbers are IEEE-754 binary64 values: they are modelled by
      the Standard Library's executable specification of binary64
      ([spec_float] at precision 53 and maximal exponent 1024), so that NaN,
      signed zeros, infinities and rounding are the ones the program sees.
    - JavaScript strings are sequences of UTF-16 code units ([list N]); the
      regular expressions of the tokenizer carry no [u] flag and therefore
      work on code units.
    - [String.prototype.toLowerCase] and [String.prototype.normalize] are
      Unicode table look-ups of the host; they are an interface
      ([StringBuiltins]) of which only the behaviour on ASCII text is fixed.
    - [crypto.randomUUID()] and [new Date().toISOString()] are read from an
      explicit [Ambient] argument. *)

From Stdlib Require Import ZArith NArith String Ascii.
From Stdlib Require Import Floats.SpecFloat.
From stdpp Require Import base decidable numbers option list strings.
From stdpp Require Import countable gmap sets.

Local Open Scope Z_scope.

(** ** JavaScript numbers *)

Module Num.

Definition number : Type := spec_float.

Definition prec : Z := 53.
Definition emax : Z := 1024.

Definition NaN : number := S754_nan.
Definition zero : number := S754_zero false.

(** The Number value of a mathematical integer (array lengths, integer
    literals): the nearest binary64 value, ties to even. *)
Definition of_Z (z : Z) : number := binary_normalize prec emax z 0 false.
Definition of_nat (n : nat) : number := of_Z (Z.of_nat n).

Definition sub : number -> number -> number := SFsub prec emax.
Definition mul : number -> number -> number := SFmul prec emax.
Definition div : number -> number -> number := SFdiv prec emax.
Definition sqrt : number -> number := SFsqrt prec emax.
Definition neg : number -> number := SFopp.

(** [x < y] and [x >= y]; every comparison with NaN is false. *)
Definition lt (x y : number) : bool := SFltb x y.
Definition ge (x y : number) : bool := SFleb y x.

(** The Number value of the decimal literal [n / d] written in the source
    ([0.35] is [decimal 35 100]): numerator and denominator are exact, and
    the quotient is rounded once, to nearest. *)
Definition decimal (n : Z) (d : positive) : number :=
  div (of_Z n) (of_Z (Zpos d)).

(** ToBoolean on a number: [0], [-0] and [NaN] are falsy. *)
Definition truthy (x : number) : bool :=
  match x with
  | S754_zero _ | S754_nan => false
  | _ => true
  end.

Definition is_nan (x : number) : bool :=
  match x with S754_nan => true | _ => false end.

Definition is_finite (x : number) : bool :=
  match x with
  | S754_zero _ | S754_finite _ _ _ => true
  | _ => false
  end.

(** The sign bit is clear and the value is not NaN. *)
Definition sign_clear (x : number) : bool :=
  match x with
  | S754_zero false | S754_infinity false | S754_finite false _ _ => true
  | _ => false
  end.

(** [Math.round]: the integer closest to [x], ties towards +Infinity, that
    is floor(x + 1/2) computed exactly.  NaN, the zeros and the infinities
    are returned unchanged; a result that is zero keeps the sign of [x]. *)
Definition round (x : number) : number :=
  match x with
  | S754_finite s m e =>
      if 0 <=? e then x
      else
        let k := - e in
        let sm := cond_Zopp s (Zpos m) in
        binary_normalize prec emax ((2 * sm + 2 ^ k) / 2 ^ (k + 1)) 0 s
  | _ => x
  end.

(** The integer [n] for which [n / 100 - |x|] is closest to zero, the
    larger one on a tie (Number.prototype.toFixed, step 10.a). *)
Definition cents (m : positive) (e : Z) : Z :=
  if 0 <=? e then 100 * Zpos m * 2 ^ e
  else (200 * Zpos m + 2 ^ (- e)) / 2 ^ (- e + 1).

(** [Number(x.toFixed(2))]: [x] is printed with two fractional digits and
    the numeral is read back, rounding to the nearest binary64 value.
    Below 1e21 the numeral is [cents / 100] with the sign of [x] (["-0.00"]
    reads back as [-0]); from 1e21 on, and for NaN and the infinities,
    [toFixed] prints what [ToString] prints, which reads back as [x];
    [-0] prints as ["0.00"]. *)
Definition toFixed2 (x : number) : number :=
  match x with
  | S754_finite s m e =>
      if SFleb (of_Z (10 ^ 21)) (SFabs x) then x
      else
        match cents m e with
        | Zpos n => div (S754_finite s n 0) (of_Z 100)
        | _ => S754_zero s
        end
  | S754_zero _ => zero
  | _ => x
  end.

End Num.

Abbreviation number := Num.number.

(** ** JavaScript strings *)

(** A string is its sequence of UTF-16 code units. *)
Definition jsstring : Type := list N.

(** The code units of an ASCII literal. *)
Fixpoint u (s : string) : jsstring :=
  match s with
  | EmptyString => []
  | String c r => N_of_ascii c :: u r
  end.

Local Open Scope N_scope.

(** [\s]: WhiteSpace and LineTerminator code points. *)
Definition is_space (c : N) : bool :=
  (9 <=? c) && (c <=? 13) || (c =? 32) || (c =? 160) || (c =? 5760)
  || (8192 <=? c) && (c <=? 8202) || (c =? 8232) || (c =? 8233)
  || (c =? 8239) || (c =? 8287) || (c =? 12288) || (c =? 65279).

Definition is_digit (c : N) : bool := (48 <=? c) && (c <=? 57).
Definition is_upper (c : N) : bool := (65 <=? c) && (c <=? 90).
Definition is_lower (c : N) : bool := (97 <=? c) && (c <=? 122).

(** [\w] is [[A-Za-z0-9_]]. *)
Definition is_word (c : N) : bool :=
  is_upper c || is_lower c || is_digit c || (c =? 95).

(** The class of code units U+0300 to U+036F, the combining diacritical
    marks. *)
Definition is_combining (c : N) : bool := (768 <=? c) && (c <=? 879).

(** The complement of [[^\w\s]]: the code units the tokenizer keeps. *)
Definition is_word_or_space (c : N) : bool := is_word c || is_space c.

Local Close Scope N_scope.

(** [s.split(/\s+/)]: the pieces between maximal runs of white space.  A
    string that starts (ends) with white space has an empty first (last)
    piece, and the empty string splits into one empty piece.  [in_sep]
    tells that the previous code unit was white space. *)
Fixpoint split_go (in_sep : bool) (s : jsstring) : list jsstring :=
  match s with
  | [] => [[]]
  | c :: r =>
      if is_space c then
        if in_sep then split_go true r else [] :: split_go true r
      else
        match split_go false r with
        | p :: ps => (c :: p) :: ps
        | [] => [[c]]
        end
  end.

Definition split_ws (s : jsstring) : list jsstring := split_go false s.

Fixpoint trimStart (s : jsstring) : jsstring :=
  match s with
  | c :: r => if is_space c then trimStart r else s
  | [] => []
  end.

Definition trimEnd (s : jsstring) : jsstring := rev (trimStart (rev s)).

(** [s.trim()] *)
Definition trim (s : jsstring) : jsstring := trimEnd (trimStart s).

(** Whether a scan that starts in state [b] (the previous code unit was
    white space) ends on white space. *)
Fixpoint ends_in_space (b : bool) (s : jsstring) : bool :=
  match s with
  | [] => b
  | c :: r => ends_in_space (is_space c) r
  end.

(** ** Host string built-ins *)

Definition ascii_lower (c : N) : N := if is_upper c then (c + 32)%N else c.

(** [toLowerCase] and [normalize("NFD")] depend on the Unicode tables of the
    host.  On text made of ASCII code units they are fixed: lower-casing
    moves [A-Z] to [a-z] and canonical decomposition changes nothing. *)
Class StringBuiltins := {
  toLowerCase : jsstring -> jsstring;
  normalizeNFD : jsstring -> jsstring;
  toLowerCase_ascii s :
    Forall (fun c => (c < 128)%N) s -> toLowerCase s = map ascii_lower s;
  normalizeNFD_ascii s :
    Forall (fun c => (c < 128)%N) s -> normalizeNFD s = s
}.

(** The built-ins cut down to ASCII text: code units from 128 on are left
    as they are.  Used to run the engine on ASCII inputs. *)
Definition ascii_builtins : StringBuiltins :=
  {| toLowerCase := map ascii_lower;
     normalizeNFD := fun s => s;
     toLowerCase_ascii := fun s _ => eq_refl;
     normalizeNFD_ascii := fun s _ => eq_refl |}.

(** ** types.ts *)

Inductive Complexity := neutral | dense.
Inductive Language := pt_BR | en_US | es_ES.

Module NormativeProfile.
Record t := {
  id : string;
  label : string;
  language : Language;
  mean_wpm : number;
  sd_wpm : number;
  mean_coverage : number;
  sd_coverage : number;
  reliability_coverage : number
}.
End NormativeProfile.

Module Keypoint.
Record t := {
  id : Z;
  text : jsstring;
  tokens : list jsstring
}.
End Keypoint.

Module TestInstance.
Record t := {
  id : string;
  language : Language;
  topic : string;
  complexity : Complexity;
  passage : jsstring;
  keypoints : list Keypoint.t;
  target_words : number;
  allowed_time_sec : number;
  normative_profile_id : string;
  created_at : string
}.
End TestInstance.

Module KeypointResult.
Record t := {
  keypoint_id : Z;
  text : jsstring;
  hit : bool;
  matched_tokens : list jsstring
}.
End KeypointResult.

Module SessionResult.
Record t := {
  session_id : string;
  test_id : string;
  normative_profile_id : string;
  recall_text : jsstring;
  coverage_pct : number;
  z_coverage : number;
  wpm_effective : number;
  z_wpm : option number;
  rci_coverage : option number;
  created_at : string;
  keypoint_results : list KeypointResult.t;
  qualitative_label : string
}.
End SessionResult.

(** ** constants.ts *)

Definition STOPWORDS_PT_BR : gset jsstring :=
  list_to_set [
    u "a"; u "o"; u "as"; u "os"; u "um"; u "uma"; u "uns"; u "umas";
    u "de"; u "do"; u "da"; u "dos"; u "das";
    u "em"; u "no"; u "na"; u "nos"; u "nas";
    u "por"; u "pelo"; u "pela"; u "pelos"; u "pelas";
    u "para"; u "com"; u "sem"; u "sob"; u "sobre"; u "ante";
    u "at" ++ [233%N];
    u "e"; u "ou"; u "mas"; u "nem"; u "que"; u "se"; u "como";
    u "eu"; u "tu"; u "ele"; u "ela";
    [110; 243; 115]%N; [118; 243; 115]%N; u "eles"; u "elas";
    u "me"; u "te"; u "se"; u "nos"; u "vos"; u "lhe"; u "lhes";
    u "meu"; u "teu"; u "seu"; u "nosso"; u "vosso";
    u "ser"; u "estar"; u "ter"; u "haver"; u "fazer"; u "ir";
    u "foi"; u "era"; [233%N]; [115; 227; 111]%N;
    u "est" ++ [225%N]; u "est" ++ [227; 111]%N;
    u "isso"; u "aquilo"; u "isto"; u "esse"; u "essa"; u "este"; u "esta";
    u "muito"; u "pouco"; u "mais"; u "menos"; [116; 227; 111]%N
  ].

Definition STOPWORDS_EN_US : gset jsstring :=
  list_to_set [
    u "a"; u "an"; u "the"; u "in"; u "on"; u "at"; u "to"; u "for";
    u "of"; u "with"; u "by";
    u "and"; u "or"; u "but"; u "is"; u "are"; u "was"; u "were";
    u "be"; u "been";
    u "i"; u "you"; u "he"; u "she"; u "it"; u "we"; u "they";
    u "this"; u "that"; u "these"; u "those"
  ].

Definition NORMATIVE_PROFILES : list NormativeProfile.t := [
  {| NormativeProfile.id := "adult_high_performance";
     NormativeProfile.label := "Adulto (Alto Desempenho) - 39 anos / QI ~132";
     NormativeProfile.language := pt_BR;
     NormativeProfile.mean_wpm := Num.of_Z 250;
     NormativeProfile.sd_wpm := Num.of_Z 40;
     NormativeProfile.mean_coverage := Num.of_Z 80;
     NormativeProfile.sd_coverage := Num.of_Z 10;
     NormativeProfile.reliability_coverage := Num.decimal 85 100 |};
  {| NormativeProfile.id := "adult_pt_br_general";
     NormativeProfile.label := "Adulto Geral (pt-BR) - Piloto";
     NormativeProfile.language := pt_BR;
     NormativeProfile.mean_wpm := Num.of_Z 180;
     NormativeProfile.sd_wpm := Num.of_Z 30;
     NormativeProfile.mean_coverage := Num.of_Z 65;
     NormativeProfile.sd_coverage := Num.of_Z 15;
     NormativeProfile.reliability_coverage := Num.decimal 80 100 |};
  {| NormativeProfile.id := "elderly_pt_br_general";
     NormativeProfile.label := "Idoso >65 anos (pt-BR) - Piloto";
     NormativeProfile.language := pt_BR;
     NormativeProfile.mean_wpm := Num.of_Z 140;
     NormativeProfile.sd_wpm := Num.of_Z 25;
     NormativeProfile.mean_coverage := Num.of_Z 50;
     NormativeProfile.sd_coverage := Num.of_Z 12;
     NormativeProfile.reliability_coverage := Num.decimal 75 100 |};
  {| NormativeProfile.id := "adult_en_us_general";
     NormativeProfile.label := "General Adult (en-US) - Pilot";
     NormativeProfile.language := en_US;
     NormativeProfile.mean_wpm := Num.of_Z 230;
     NormativeProfile.sd_wpm := Num.of_Z 40;
     NormativeProfile.mean_coverage := Num.of_Z 65;
     NormativeProfile.sd_coverage := Num.of_Z 15;
     NormativeProfile.reliability_coverage := Num.decimal 80 100 |}
].

(** ** services/scoringService.ts *)

(** [new Set(xs)] followed by [Array.from]: the distinct elements of [xs] in
    the order of their first occurrence.  [seen] holds what the set already
    contains. *)
Fixpoint set_insert_all (seen xs : list jsstring) : list jsstring :=
  match xs with
  | [] => []
  | x :: r =>
      if decide (x ∈ seen) then set_insert_all seen r
      else x :: set_insert_all (x :: seen) r
  end.

Definition Array_from_Set (xs : list jsstring) : list jsstring :=
  set_insert_all [] xs.

Section Engine.
Context {builtins : StringBuiltins}.

(** Helper: tokenize and clean text. *)
Definition tokenize (text : jsstring) (language : Language) : list jsstring :=
  let normalized :=
    List.filter is_word_or_space
      (List.filter (fun c => negb (is_combining c))
         (normalizeNFD (toLowerCase text))) in
  let tokens :=
    filter (fun t : jsstring => (0 < length t)%nat) (split_ws normalized) in
  let stopwords :=
    match language with en_US => STOPWORDS_EN_US | _ => STOPWORDS_PT_BR end in
  filter (fun t : jsstring => (t ∉ stopwords) /\ (2 < length t)%nat) tokens.

(** [const matches] and [const coverageRatio] of [calculateMatch]. *)
Definition matches_of (recallTokens keypointTokens : list jsstring)
  : list jsstring :=
  filter (fun kt => kt ∈ recallTokens) keypointTokens.

Definition coverageRatio (recallTokens keypointTokens : list jsstring)
  : number :=
  Num.div (Num.of_nat (length (matches_of recallTokens keypointTokens)))
          (Num.of_nat (length keypointTokens)).

Record MatchResult := { hit : bool; matches : list jsstring }.

(** Helper: calculate overlap. *)
Definition calculateMatch (recallTokens keypointTokens : list jsstring)
  : MatchResult :=
  let matches := matches_of recallTokens keypointTokens in
  let uniqueMatches := Array_from_Set matches in
  let coverageRatio := coverageRatio recallTokens keypointTokens in
  let hit :=
    Num.ge coverageRatio (Num.decimal 35 100)
    || bool_decide (2 <= length uniqueMatches)%nat in
  {| hit := hit; matches := uniqueMatches |}.

(** What the engine reads from its surroundings: the identifier that
    [crypto.randomUUID()] returns and the time stamp that
    [new Date().toISOString()] returns. *)
Record Ambient := { randomUUID : string; toISOString : string }.

(** *** The local bindings of [scoreSession], in the order of the source *)

(** 1. Score keypoints. *)
Definition keypointResults (test : TestInstance.t) (recallText : jsstring)
  : list KeypointResult.t :=
  let recallTokens := tokenize recallText (TestInstance.language test) in
  map (fun kp =>
         let kpTokens :=
           tokenize (Keypoint.text kp) (TestInstance.language test) in
         let r := calculateMatch recallTokens kpTokens in
         {| KeypointResult.keypoint_id := Keypoint.id kp;
            KeypointResult.text := Keypoint.text kp;
            KeypointResult.hit := hit r;
            KeypointResult.matched_tokens := matches r |})
      (TestInstance.keypoints test).

Definition hitCount (test : TestInstance.t) (recallText : jsstring) : nat :=
  length (List.filter KeypointResult.hit (keypointResults test recallText)).

Definition coveragePct (test : TestInstance.t) (recallText : jsstring)
  : number :=
  Num.mul
    (Num.div (Num.of_nat (hitCount test recallText))
             (Num.of_nat (length (TestInstance.keypoints test))))
    (Num.of_Z 100).

(** 2. Normative comparison. *)
Definition profile (test : TestInstance.t) : option NormativeProfile.t :=
  List.find
    (fun p => String.eqb (NormativeProfile.id p)
                         (TestInstance.normative_profile_id test))
    NORMATIVE_PROFILES.

(** Effective WPM; the floor on the time avoids a division by zero. *)
Definition safeTime (actualReadTimeSec : number) : number :=
  if Num.lt actualReadTimeSec (Num.of_Z 5) then Num.of_Z 5
  else actualReadTimeSec.

Definition passageWordCount (test : TestInstance.t) : nat :=
  length (split_ws (trim (TestInstance.passage test))).

Definition wpmEffective (test : TestInstance.t) (actualReadTimeSec : number)
  : number :=
  Num.round
    (Num.mul
       (Num.div (Num.of_nat (passageWordCount test))
                (safeTime actualReadTimeSec))
       (Num.of_Z 60)).

(** [let zCoverage = 0], reassigned when the profile is found. *)
Definition zCoverage (profile : option NormativeProfile.t)
    (coveragePct : number) : number :=
  match profile with
  | Some p =>
      Num.div (Num.sub coveragePct (NormativeProfile.mean_coverage p))
              (NormativeProfile.sd_coverage p)
  | None => Num.of_Z 0
  end.

(** [let zWpm = undefined], assigned when the profile is found. *)
Definition zWpm (profile : option NormativeProfile.t)
    (wpmEffective : number) : option number :=
  match profile with
  | Some p =>
      Some (Num.div (Num.sub wpmEffective (NormativeProfile.mean_wpm p))
                    (NormativeProfile.sd_wpm p))
  | None => None
  end.

Definition qualitativeLabel (profile : option NormativeProfile.t)
    (zCoverage : number) : string :=
  match profile with
  | Some _ =>
      if Num.ge zCoverage (Num.of_Z (-1)) then "Dentro da faixa esperada"
      else if Num.ge zCoverage (Num.of_Z (-2)) then "Levemente reduzido"
      else "Abaixo do esperado"
  | None => "Dados normativos indisponíveis"
  end.

(** Sdiff = SD * sqrt(2 * (1 - rxx)) *)
Definition sDiff (p : NormativeProfile.t) : number :=
  Num.mul (NormativeProfile.sd_coverage p)
    (Num.sqrt
       (Num.mul (Num.of_Z 2)
          (Num.sub (Num.of_Z 1) (NormativeProfile.reliability_coverage p)))).

(** [let rciCoverage = undefined], assigned when the profile is found and
    a previous session was passed (an object is always truthy). *)
Definition rciCoverage (profile : option NormativeProfile.t)
    (previousSession : option SessionResult.t) (coveragePct : number)
  : option number :=
  match profile, previousSession with
  | Some p, Some prev =>
      let diff := Num.sub coveragePct (SessionResult.coverage_pct prev) in
      Some (Num.div diff (sDiff p))
  | _, _ => None
  end.

(** [v ? Number(v.toFixed(2)) : undefined], for [v] a number or
    [undefined]: the conditional tests the truthiness of [v]. *)
Definition fixed2_if_truthy (v : option number) : option number :=
  match v with
  | Some x => if Num.truthy x then Some (Num.toFixed2 x) else None
  | None => None
  end.

Definition scoreSession (env : Ambient) (test : TestInstance.t)
    (recallText : jsstring) (actualReadTimeSec : number)
    (previousSession : option SessionResult.t) : SessionResult.t :=
  let keypointResults := keypointResults test recallText in
  let coveragePct := coveragePct test recallText in
  let profile := profile test in
  let wpmEffective := wpmEffective test actualReadTimeSec in
  let zCoverage := zCoverage profile coveragePct in
  let zWpm := zWpm profile wpmEffective in
  let qualitativeLabel := qualitativeLabel profile zCoverage in
  let rciCoverage := rciCoverage profile previousSession coveragePct in
  {| SessionResult.session_id := randomUUID env;
     SessionResult.test_id := TestInstance.id test;
     SessionResult.normative_profile_id :=
       TestInstance.normative_profile_id test;
     SessionResult.recall_text := recallText;
     SessionResult.coverage_pct := coveragePct;
     SessionResult.z_coverage := Num.toFixed2 zCoverage;
     SessionResult.wpm_effective := wpmEffective;
     SessionResult.z_wpm := fixed2_if_truthy zWpm;
     SessionResult.rci_coverage := fixed2_if_truthy rciCoverage;
     SessionResult.created_at := toISOString env;
     SessionResult.keypoint_results := keypointResults;
     SessionResult.qualitative_label := qualitativeLabel |}.

(** Helper for the UI to format tokens for display. *)
Definition getKeypointTokens (text : jsstring) (lang : Language)
  : list jsstring := tokenize text lang.
End Engine.

(** ** The specification's vocabulary *)

Module Spec.

(** matched: the distinct tokens that occur in both sequences, as a set
    intersection. *)
Definition matched (recall_tokens keypoint_tokens : list jsstring)
  : gset jsstring :=
  list_to_set recall_tokens ∩ list_to_set keypoint_tokens.

(** The number of times [t] occurs in [l]. *)
Definition occurrences (t : jsstring) (l : list jsstring) : nat :=
  length (filter (fun x => x = t) l).

(** The keypoint-token occurrences found in the recall tokens, counted
    with multiplicity against the keypoint tokens: every shared token
    counts as often as the keypoint sequence holds it. *)
Definition found_occurrences (recall_tokens keypoint_tokens : list jsstring)
  : nat :=
  sum_list_with (fun t => occurrences t keypoint_tokens)
    (elements (matched recall_tokens keypoint_tokens)).

(** coverage_ratio, defined as 0 for a keypoint without tokens. *)
Definition coverage_ratio (recall_tokens keypoint_tokens : list jsstring)
  : number :=
  match keypoint_tokens with
  | [] => Num.zero
  | _ :: _ =>
      Num.div
        (Num.of_nat (found_occurrences recall_tokens keypoint_tokens))
        (Num.of_nat (length keypoint_tokens))
  end.

(** word_count: the white-space-delimited words of a text, counted where
    they start.  [in_word] tells that the previous code unit belongs to a
    word. *)
Fixpoint count_words (in_word : bool) (s : jsstring) : nat :=
  match s with
  | [] => 0
  | c :: r =>
      if is_space c then count_words false r
      else ((if in_word then 0 else 1) + count_words true r)%nat
  end.

Definition word_count (s : jsstring) : nat := count_words false s.

(** max(a, b) on numbers; NaN when an argument is NaN. *)
Definition max (a b : number) : number :=
  if Num.is_nan a || Num.is_nan b then Num.NaN
  else if Num.lt a b then b else a.

(** wpm_effective = round(word_count / safe_time_sec × 60), where
    safe_time_sec = max(actual_time_sec, 5). *)
Definition wpm_effective (passage : jsstring) (actual_time_sec : number)
  : number :=
  Num.round
    (Num.mul
       (Num.div (Num.of_nat (word_count passage))
                (max actual_time_sec (Num.of_Z 5)))
       (Num.of_Z 60)).

(** An ASCII letter or digit. *)
Definition is_alphanumeric (c : N) : bool :=
  is_upper c || is_lower c || is_digit c.

(** The four qualitative labels.  The specification names them in English;
    the program emits these Portuguese literals. *)
Definition within_expected_range : string := "Dentro da faixa esperada".
Definition mildly_reduced : string := "Levemente reduzido".
Definition below_expected_range : string := "Abaixo do esperado".
Definition normative_data_unavailable : string :=
  "Dados normativos indisponíveis".

End Spec.

(** ** Sample sessions

    ASCII inputs on which the engine is run with [ascii_builtins]. *)

Module Examples.

Definition env : Ambient :=
  {| randomUUID := "3b241101-e2bb-4255-8caf-4136c566a962";
     toISOString := "2025-01-01T12:00:00.000Z" |}.

Definition run := scoreSession (builtins := ascii_builtins) env.

(** A keypoint as [App] builds it: tokens from [getKeypointTokens]. *)
Definition keypoint (lang : Language) (i : Z) (text : string) : Keypoint.t :=
  {| Keypoint.id := i;
     Keypoint.text := u text;
     Keypoint.tokens :=
       getKeypointTokens (builtins := ascii_builtins) (u text) lang |}.

Definition test (lang : Language) (profile_id : string) (passage : jsstring)
    (keypoints : list string) : TestInstance.t :=
  {| TestInstance.id := "b7e2c1d4-0001-4000-8000-000000000001";
     TestInstance.language := lang;
     TestInstance.topic := "Neuroplasticity and motor learning";
     TestInstance.complexity := neutral;
     TestInstance.passage := passage;
     TestInstance.keypoints :=
       imap (fun i text => keypoint lang (Z.of_nat i + 1) text) keypoints;
     TestInstance.target_words := Num.of_Z 100;
     TestInstance.allowed_time_sec := Num.of_Z 60;
     TestInstance.normative_profile_id := profile_id;
     TestInstance.created_at := "2025-01-01T11:58:00.000Z" |}.

(** [n] copies of a word, separated by single spaces. *)
Fixpoint words (n : nat) : jsstring :=
  match n with
  | O => []
  | S O => u "neuron"
  | S m => u "neuron " ++ words m
  end.

Definition five_keypoints : list string :=
  [ "Neurons rewire through repeated practice";
    "Sleep consolidates motor memory";
    "Dopamine signals reward prediction errors";
    "Myelin thickens around active axons";
    "Cerebellum corrects movement timing" ]%string.

Definition three_keypoints : list string :=
  [ "Neurons rewire through repeated practice";
    "Sleep consolidates motor memory";
    "Dopamine signals reward prediction errors" ]%string.

Definition six_keypoints : list string :=
  five_keypoints ++ [ "Mirror neurons fire during observation" ]%string.

(** A recall that covers the first four of [five_keypoints]. *)
Definition recall_four : jsstring :=
  u "Practice makes neurons rewire, sleep consolidates memory, "
  ++ u "dopamine signals reward and myelin thickens on axons.".

(** A recall that covers the first of [three_keypoints] only. *)
Definition recall_one : jsstring := u "Neurons rewire with practice.".

(** A recall that covers the first three of [five_keypoints]. *)
Definition recall_three : jsstring :=
  u "Neurons rewire with practice; sleep consolidates memory; "
  ++ u "dopamine signals reward.".

Definition test_six : TestInstance.t :=
  test en_US "adult_en_us_general" (words 100) six_keypoints.

Definition test_five : TestInstance.t :=
  test en_US "adult_en_us_general" (words 100) five_keypoints.

Definition test_three : TestInstance.t :=
  test en_US "adult_en_us_general" (words 100) three_keypoints.

Definition test_unknown_profile : TestInstance.t :=
  test en_US "custom_profile" (words 100) five_keypoints.

Definition test_no_keypoints : TestInstance.t :=
  test en_US "adult_en_us_general" (words 100) [].

Definition test_empty_passage : TestInstance.t :=
  test en_US "adult_en_us_general" [] five_keypoints.

(** Fifteen words read in five seconds are 180 words per minute, the mean
    of the profile [adult_pt_br_general]. *)
Definition test_fifteen_words : TestInstance.t :=
  test pt_BR "adult_pt_br_general" (words 15) five_keypoints.

End Examples.

(** ** services/storageService.ts *)

Definition STORAGE_KEY : jsstring := u "cogniread_sessions".

(** What the service acts on: the page's [localStorage] and the messages
    written with [console.error]. *)
Record World := {
  localStorage : gmap jsstring jsstring;
  console : list string
}.

Definition console_error (msg : string) (w : World) : World :=
  {| localStorage := localStorage w; console := console w ++ [msg] |}.

(** A number that [JSON.stringify] writes and [JSON.parse] reads back
    unchanged: a finite binary64 value other than -0 (NaN and the infinities
    are written as [null], -0 as [0]). *)
Definition json_number (x : number) : bool :=
  valid_binary Num.prec Num.emax x
  && match x with
     | S754_zero false | S754_finite _ _ _ => true
     | _ => false
     end.

Definition json_optional (v : option number) : bool :=
  match v with Some x => json_number x | None => true end.

Definition json_keypoint_result (kr : KeypointResult.t) : bool :=
  bool_decide (- 2 ^ 53 <= KeypointResult.keypoint_id kr <= 2 ^ 53).

(** A session that survives a round trip through JSON. *)
Definition json_stable (s : SessionResult.t) : bool :=
  json_number (SessionResult.coverage_pct s)
  && json_number (SessionResult.z_coverage s)
  && json_number (SessionResult.wpm_effective s)
  && json_optional (SessionResult.z_wpm s)
  && json_optional (SessionResult.rci_coverage s)
  && forallb json_keypoint_result (SessionResult.keypoint_results s).

(** [JSON.stringify], [JSON.parse] (None: it throws) and the verdict of
    [localStorage.setItem] (true: it throws, the quota being exceeded) belong
    to the host.  The stored text is taken to be unparsable or the
    serialisation of a list of sessions, the type the service declares. *)
Class StorageHost := {
  JSON_stringify : list SessionResult.t -> jsstring;
  JSON_parse : jsstring -> option (list SessionResult.t);
  setItem_throws : gmap jsstring jsstring -> jsstring -> jsstring -> bool;
  JSON_stringify_nonempty l : JSON_stringify l <> [];
  JSON_parse_stringify l :
    forallb json_stable l = true -> JSON_parse (JSON_stringify l) = Some l
}.

Section StorageService.
Context {host : StorageHost}.

Definition getSessions (w : World) : list SessionResult.t * World :=
  match (localStorage w !! STORAGE_KEY : option jsstring) with
  | None | Some [] => ([], w)
  | Some raw =>
      match JSON_parse raw with
      | Some sessions => (sessions, w)
      | None => ([], console_error "Failed to parse history" w)
      end
  end.

Definition saveSession (session : SessionResult.t) (w : World) : World :=
  let '(existing, w) := getSessions w in
  let updated := session :: existing in
  let text := JSON_stringify updated in
  if setItem_throws (localStorage w) STORAGE_KEY text
  then console_error "Failed to save session" w
  else {| localStorage := <[STORAGE_KEY := text]> (localStorage w);
          console := console w |}.

Definition clearSessions (w : World) : World :=
  {| localStorage := delete STORAGE_KEY (localStorage w);
     console := console w |}.

Definition getLatestSession (w : World) : option SessionResult.t * World :=
  let '(sessions, w) := getSessions w in (head sessions, w).

(** The scoring and storage steps of [handleSubmitRecall] in [App]. *)
Definition handleSubmitRecall {builtins : StringBuiltins} (env : Ambient)
    (testData : TestInstance.t) (recallText : jsstring) (elapsedTime : number)
    (w : World) : SessionResult.t * World :=
  let '(previous, w) := getLatestSession w in
  let sessionResult := scoreSession env testData recallText elapsedTime previous in
  (sessionResult, saveSession sessionResult w).
End StorageService.

(** ** components/HistoryChart.tsx *)



(** ** A host to run the service

    A serialisation that writes the binary code of the list of sessions and
    a store without quota: it satisfies [StorageHost] and serves to run the
    service on samples. *)

Definition spec_float_to_sum (x : spec_float)
  : bool + bool + (unit + bool * positive * Z) :=
  match x with
  | S754_zero s => inl (inl s)
  | S754_infinity s => inl (inr s)
  | S754_nan => inr (inl ())
  | S754_finite s m e => inr (inr (s, m, e))
  end.

Definition spec_float_of_sum (y : bool + bool + (unit + bool * positive * Z))
  : spec_float :=
  match y with
  | inl (inl s) => S754_zero s
  | inl (inr s) => S754_infinity s
  | inr (inl _) => S754_nan
  | inr (inr (s, m, e)) => S754_finite s m e
  end.

Definition spec_float_eq_dec : EqDecision spec_float :=
  ltac:(solve_decision).
#[global] Existing Instance spec_float_eq_dec.

Definition spec_float_countable : Countable spec_float :=
  inj_countable' spec_float_to_sum spec_float_of_sum
    (fun x => match x with
              | S754_zero _ | S754_infinity _ | S754_nan
              | S754_finite _ _ _ => eq_refl
              end).
#[global] Existing Instance spec_float_countable.

Definition KeypointResult_eq_dec : EqDecision KeypointResult.t :=
  ltac:(solve_decision).
#[global] Existing Instance KeypointResult_eq_dec.

Definition KeypointResult_countable : Countable KeypointResult.t :=
  inj_countable'
    (fun kr => (KeypointResult.keypoint_id kr, KeypointResult.text kr,
                KeypointResult.hit kr, KeypointResult.matched_tokens kr))
    (fun '(i, t, h, m) =>
       {| KeypointResult.keypoint_id := i; KeypointResult.text := t;
          KeypointResult.hit := h; KeypointResult.matched_tokens := m |})
    (fun kr => match kr with KeypointResult.Build_t _ _ _ _ => eq_refl end).
#[global] Existing Instance KeypointResult_countable.

Definition SessionResult_eq_dec : EqDecision SessionResult.t :=
  ltac:(solve_decision).
#[global] Existing Instance SessionResult_eq_dec.

Definition SessionResult_countable : Countable SessionResult.t :=
  inj_countable'
    (fun s =>
       (SessionResult.session_id s, SessionResult.test_id s,
        SessionResult.normative_profile_id s, SessionResult.recall_text s,
        SessionResult.coverage_pct s, SessionResult.z_coverage s,
        SessionResult.wpm_effective s, SessionResult.z_wpm s,
        SessionResult.rci_coverage s, SessionResult.created_at s,
        SessionResult.keypoint_results s, SessionResult.qualitative_label s))
    (fun '(a, b, c, d, e, f, g, h, i, j, k, l) =>
       {| SessionResult.session_id := a; SessionResult.test_id := b;
          SessionResult.normative_profile_id := c;
          SessionResult.recall_text := d; SessionResult.coverage_pct := e;
          SessionResult.z_coverage := f; SessionResult.wpm_effective := g;
          SessionResult.z_wpm := h; SessionResult.rci_coverage := i;
          SessionResult.created_at := j; SessionResult.keypoint_results := k;
          SessionResult.qualitative_label := l |})
    (fun s =>
       match s with
       | SessionResult.Build_t _ _ _ _ _ _ _ _ _ _ _ _ => eq_refl
       end).
#[global] Existing Instance SessionResult_countable.

(** The bits of a positive number as the digits 0 and 1, closed by a 2. *)
Fixpoint pos_to_text (p : positive) : jsstring :=
  match p with
  | xH => [50%N]
  | xO q => 48%N :: pos_to_text q
  | xI q => 49%N :: pos_to_text q
  end.

Fixpoint text_to_pos (s : jsstring) : option positive :=
  match s with
  | [] => None
  | c :: r =>
      if (c =? 50)%N then Some xH
      else match text_to_pos r with
           | Some q => Some (if (c =? 49)%N then xI q else xO q)
           | None => None
           end
  end.

Fixpoint text_to_pos_to_text (p : positive)
  : text_to_pos (pos_to_text p) = Some p :=
  match p with
  | xH => eq_refl
  | xO q =>
      f_equal (fun o : option positive =>
                 match o with Some r => Some (xO r) | None => None end)
              (text_to_pos_to_text q)
  | xI q =>
      f_equal (fun o : option positive =>
                 match o with Some r => Some (xI r) | None => None end)
              (text_to_pos_to_text q)
  end.

Definition pos_to_text_nonempty (p : positive) : pos_to_text p <> [] :=
  ltac:(destruct p; discriminate).

Definition binary_host : StorageHost :=
  {| JSON_stringify := fun l => pos_to_text (encode l);
     JSON_parse := fun s =>
       match text_to_pos s with Some p => decode p | None => None end;
     setItem_throws := fun _ _ _ => false;
     JSON_stringify_nonempty := fun l => pos_to_text_nonempty (encode l);
     JSON_parse_stringify := fun l _ =>
       eq_trans
         (f_equal (fun o : option positive =>
                     match o with Some p => decode p | None => None end)
                  (text_to_pos_to_text (encode l)))
         (decode_encode l) |}.

(** ** Sample histories *)

Module Samples.

(** A host whose store is full: every [setItem] throws. *)
Definition full_host : StorageHost :=
  {| JSON_stringify := JSON_stringify (StorageHost := binary_host);
     JSON_parse := JSON_parse (StorageHost := binary_host);
     setItem_throws := fun _ _ _ => true;
     JSON_stringify_nonempty :=
       JSON_stringify_nonempty (StorageHost := binary_host);
     JSON_parse_stringify :=
       JSON_parse_stringify (StorageHost := binary_host) |}.

(** A fresh page: nothing stored, nothing logged. *)
Definition fresh : World := {| localStorage := ∅; console := [] |}.

(** A page that keeps only the theme of the application. *)
Definition themed : World :=
  {| localStorage := {[ u "theme" := u "dark" ]}; console := [] |}.

Definition first_session : SessionResult.t :=
  Examples.run Examples.test_six Examples.recall_three (Num.of_Z 40) None.


(** A test as [test_five], generated anew: other identifier, topic and
    stored tokens, the same keypoint texts. *)
Definition test_five_again : TestInstance.t :=
  {| TestInstance.id := TestInstance.id Examples.test_five;
     TestInstance.language := en_US;
     TestInstance.topic := "Sleep and memory";
     TestInstance.complexity := dense;
     TestInstance.passage := TestInstance.passage Examples.test_five;
     TestInstance.keypoints :=
       map (fun kp =>
              {| Keypoint.id := Keypoint.id kp;
                 Keypoint.text := Keypoint.text kp;
                 Keypoint.tokens := [] |})
           (TestInstance.keypoints Examples.test_five);
     TestInstance.target_words := Num.of_Z 250;
     TestInstance.allowed_time_sec := Num.of_Z 90;
     TestInstance.normative_profile_id := "adult_en_us_general";
     TestInstance.created_at := "2025-02-01T09:00:00.000Z" |}.

End Samples.

(** ** Lists of tokens *)

Section TokenLists.
Implicit Types (l xs seen : list jsstring) (x t : jsstring).

Lemma filter_ext_elem (P Q : jsstring -> Prop)
    `{!forall x, Decision (P x)} `{!forall x, Decision (Q x)} l :
  (forall x, x ∈ l -> P x <-> Q x) -> filter P l = filter Q l.
Proof.
  induction l as [|a l IH]; intros HPQ; [done|].
  rewrite !filter_cons.
  rewrite IH by (intros x Hx; apply HPQ; by right).
  destruct (HPQ a) as [H1 H2]; [by left|].
  repeat case_decide; tauto || done.
Qed.

Lemma set_insert_all_elem xs : forall seen x,
  x ∈ set_insert_all seen xs <-> x ∈ xs /\ x ∉ seen.
Proof.
  induction xs as [|a xs IH]; intros seen x; simpl.
  - rewrite elem_of_nil. tauto.
  - case_decide as Ha.
    + rewrite IH, elem_of_cons. split; [tauto|].
      intros [[->|?] ?]; tauto.
    + rewrite !elem_of_cons, IH, elem_of_cons.
      destruct (decide (x = a)) as [->|]; tauto.
Qed.

Lemma set_insert_all_NoDup xs : forall seen, NoDup (set_insert_all seen xs).
Proof.
  induction xs as [|a xs IH]; intros seen; simpl; [constructor|].
  case_decide; [apply IH|].
  apply NoDup_cons. split; [|apply IH].
  rewrite set_insert_all_elem, elem_of_cons. tauto.
Qed.

Lemma Array_from_Set_elem xs x : x ∈ Array_from_Set xs <-> x ∈ xs.
Proof.
  unfold Array_from_Set. rewrite set_insert_all_elem, elem_of_nil. tauto.
Qed.

Lemma Array_from_Set_NoDup xs : NoDup (Array_from_Set xs).
Proof. apply set_insert_all_NoDup. Qed.

Lemma Array_from_Set_length xs :
  length (Array_from_Set xs) = size (list_to_set xs : gset jsstring).
Proof.
  rewrite <- (size_list_to_set (C:=gset jsstring) (Array_from_Set xs))
    by apply Array_from_Set_NoDup.
  f_equal. apply set_eq. intros x.
  by rewrite !elem_of_list_to_set, Array_from_Set_elem.
Qed.

Lemma length_filter_elem_cons t ts l :
  t ∉ ts ->
  length (filter (fun x => x ∈ t :: ts) l)
  = (Spec.occurrences t l + length (filter (fun x => x ∈ ts) l))%nat.
Proof.
  intros Ht. unfold Spec.occurrences.
  induction l as [|a l IH]; [done|].
  rewrite !filter_cons.
  destruct (decide (a = t)) as [->|Hne].
  - rewrite decide_True by (by left).
    rewrite (decide_False (P:=t ∈ ts)) by done.
    simpl. by rewrite IH.
  - destruct (decide (a ∈ ts)) as [Hin|Hnin].
    + rewrite decide_True by (by right). simpl. rewrite IH. lia.
    + rewrite decide_False; [done|].
      rewrite elem_of_cons. tauto.
Qed.

Lemma sum_occurrences_NoDup ts l :
  NoDup ts ->
  sum_list_with (fun t => Spec.occurrences t l) ts
  = length (filter (fun x => x ∈ ts) l).
Proof.
  induction 1 as [|t ts Ht Hts IH]; simpl.
  - induction l as [|a l IHl]; [done|].
    rewrite filter_cons, decide_False; [done|]. apply not_elem_of_nil.
  - by rewrite length_filter_elem_cons, IH.
Qed.
End TokenLists.

Section MatchEvaluator.
Implicit Types recall kp : list jsstring.

Lemma matches_of_set recall kp :
  list_to_set (matches_of recall kp) = Spec.matched recall kp.
Proof.
  unfold matches_of, Spec.matched. apply set_eq. intros x.
  rewrite elem_of_intersection, !elem_of_list_to_set, list_elem_of_filter.
  tauto.
Qed.

Lemma matches_of_length recall kp :
  length (matches_of recall kp) = Spec.found_occurrences recall kp.
Proof.
  unfold Spec.found_occurrences, matches_of.
  rewrite sum_occurrences_NoDup by apply NoDup_elements.
  f_equal. apply filter_ext_elem. intros x Hx.
  rewrite elem_of_elements. unfold Spec.matched.
  rewrite elem_of_intersection, !elem_of_list_to_set. tauto.
Qed.

Lemma calculateMatch_matches recall kp :
  matches (calculateMatch recall kp) = Array_from_Set (matches_of recall kp).
Proof. reflexivity. Qed.

Lemma calculateMatch_hit recall kp :
  hit (calculateMatch recall kp)
  = Num.ge (coverageRatio recall kp) (Num.decimal 35 100)
    || bool_decide (2 <= length (Array_from_Set (matches_of recall kp)))%nat.
Proof. reflexivity. Qed.
End MatchEvaluator.

(** ** Signs of binary64 results *)

Section Signs.
Import Num.

Lemma sign_clear_ge_zero x : sign_clear x = true -> ge x zero = true.
Proof. by destruct x as [[]|[]| |[] ? ?]. Qed.

Lemma iter_pos_invariant {A} (P : A -> Prop) (f : A -> A) :
  (forall x, P x -> P (f x)) -> forall p x, P x -> P (SpecFloat.iter_pos f p x).
Proof. intros Hf. induction p; simpl; auto. Qed.

Lemma shr_1_nonneg mrs : 0 <= shr_m mrs -> 0 <= shr_m (shr_1 mrs).
Proof. destruct mrs as [[|[p|p|]|[p|p|]] r s]; simpl; lia. Qed.

Lemma shr_fexp_nonneg m e l :
  0 <= m -> 0 <= shr_m (fst (shr_fexp prec emax m e l)).
Proof.
  intros Hm. unfold shr_fexp, shr.
  assert (0 <= shr_m (shr_record_of_loc m l)) as H0
    by (by destruct l as [|[]]).
  destruct (fexp prec emax (Zdigits2 m + e) - e); simpl; try done.
  apply (iter_pos_invariant (fun r => 0 <= shr_m r)); [apply shr_1_nonneg|done].
Qed.

Lemma round_nearest_even_nonneg m l : 0 <= m -> 0 <= round_nearest_even m l.
Proof.
  intros Hm. destruct l as [|[]]; simpl; try lia.
  destruct (Z.even m); lia.
Qed.

Lemma binary_round_aux_sign_clear m e l :
  0 <= m -> sign_clear (binary_round_aux prec emax false m e l) = true.
Proof.
  intros Hm. unfold binary_round_aux.
  pose proof (shr_fexp_nonneg m e l Hm) as H1.
  destruct (shr_fexp prec emax m e l) as [mrs' e'] eqn:E1. simpl in H1.
  pose proof (shr_fexp_nonneg _ e' loc_Exact
                (round_nearest_even_nonneg _ (loc_of_shr_record mrs') H1))
    as H2.
  destruct (shr_fexp prec emax _ e' loc_Exact) as [mrs'' e''] eqn:E2.
  simpl in H2.
  destruct (shr_m mrs''); [done| |lia].
  by destruct (e'' <=? emax - prec).
Qed.

Lemma of_Z_sign_clear z : 0 <= z -> sign_clear (of_Z z) = true.
Proof.
  intros Hz. unfold of_Z, binary_normalize.
  destruct z as [|p|p]; [done| |lia].
  unfold binary_round. destruct (shl_align _ _ _) as [mz ez].
  by apply binary_round_aux_sign_clear.
Qed.

(** A quotient by a finite positive divisor. *)
Lemma div_sign_clear x m e :
  sign_clear x = true -> sign_clear (div x (S754_finite false m e)) = true.
Proof.
  destruct x as [[]|[]| |[] mx ex]; try done. intros _.
  unfold div, SFdiv.
  destruct (SFdiv_core_binary prec emax (Z.pos mx) ex (Z.pos m) e)
    as [[mz ez] lz] eqn:E.
  apply binary_round_aux_sign_clear.
  unfold SFdiv_core_binary in E.
  set (m' := match _ - _ - _ with Z0 => _ | Zpos _ => _ | Zneg _ => _ end) in E.
  assert (0 <= m') as Hm'.
  { subst m'. destruct (_ - _ - _); try lia. apply Z.shiftl_nonneg. lia. }
  pose proof (Z.div_pos m' (Z.pos m) Hm' eq_refl) as Hq.
  unfold Z.div in Hq. destruct (Z.div_eucl m' (Z.pos m)) as [q r].
  simpl in Hq. by inversion E; subst.
Qed.

Lemma mul_sign_clear x m e :
  sign_clear x = true -> sign_clear (mul x (S754_finite false m e)) = true.
Proof.
  destruct x as [[]|[]| |[] mx ex]; try done. intros _.
  unfold mul, SFmul. simpl. by apply binary_round_aux_sign_clear.
Qed.

Lemma round_sign_clear x : sign_clear x = true -> sign_clear (round x) = true.
Proof.
  destruct x as [[]|[]| |[] m e]; try done. intros _.
  unfold round. destruct (Z.leb_spec 0 e) as [|He]; [done|].
  cbv zeta. simpl cond_Zopp. apply of_Z_sign_clear.
  apply Z.div_pos; [|apply Z.pow_pos_nonneg; lia].
  pose proof (Z.pow_nonneg 2 (- e)). lia.
Qed.
End Signs.

(** ** Words of a passage *)

Section Words.
Implicit Types (s l ws : jsstring) (b : bool).

Lemma split_go_length s : forall b,
  length (split_go b s)
  = (Spec.count_words (negb b) s + (if b then 0 else 1)
     + (if ends_in_space b s then 1 else 0))%nat.
Proof.
  induction s as [|c r IH]; intros b; simpl.
  - by destruct b.
  - destruct (is_space c) eqn:Hc.
    + destruct b; simpl; rewrite IH; simpl; lia.
    + pose proof (IH false) as IHf. simpl in IHf.
      destruct (split_go false r) as [|p ps]; simpl in *; [lia|].
      destruct b; simpl; lia.
Qed.

Lemma ends_in_space_last l c b : ends_in_space b (l ++ [c]) = is_space c.
Proof.
  revert b. induction l as [|a l IH]; intros b; simpl; [done|apply IH].
Qed.

Lemma count_words_spaces ws b :
  Forall (fun c => is_space c = true) ws -> Spec.count_words b ws = 0%nat.
Proof.
  intros Hws. revert b.
  induction Hws as [|c ws Hc _ IHws]; intros b; simpl; [done|].
  by rewrite Hc.
Qed.

Lemma count_words_app_spaces l ws b :
  Forall (fun c => is_space c = true) ws ->
  Spec.count_words b (l ++ ws) = Spec.count_words b l.
Proof.
  intros Hws. revert b. induction l as [|a l IH]; intros b; simpl.
  - by apply count_words_spaces.
  - destruct (is_space a); by rewrite IH.
Qed.

Lemma trimStart_split s :
  exists ws, s = ws ++ trimStart s /\ Forall (fun c => is_space c = true) ws.
Proof.
  induction s as [|c r (ws & Hr & Hws)]; simpl.
  - by exists [].
  - destruct (is_space c) eqn:Hc.
    + exists (c :: ws). split; [simpl; by f_equal|by constructor].
    + by exists [].
Qed.

Lemma trimStart_head s :
  trimStart s = [] \/ exists c r, trimStart s = c :: r /\ is_space c = false.
Proof.
  induction s as [|c r IH]; simpl; [by left|].
  destruct (is_space c) eqn:Hc; [done|]. right. by exists c, r.
Qed.

Lemma trimStart_snoc l c :
  is_space c = false -> trimStart (l ++ [c]) = trimStart l ++ [c].
Proof.
  intros Hc. induction l as [|a l IH]; simpl; [by rewrite Hc|].
  by destruct (is_space a).
Qed.

Lemma trimEnd_cons c s :
  is_space c = false -> trimEnd (c :: s) = c :: trimEnd s.
Proof.
  intros Hc. unfold trimEnd. simpl.
  by rewrite trimStart_snoc, rev_app_distr.
Qed.

Lemma trimEnd_split s :
  exists ws, s = trimEnd s ++ ws /\ Forall (fun c => is_space c = true) ws.
Proof.
  destruct (trimStart_split (rev s)) as (ws & Hs & Hws).
  exists (rev ws). split.
  - unfold trimEnd. rewrite <- rev_app_distr, <- Hs. by rewrite rev_involutive.
  - by apply Forall_rev.
Qed.

Lemma trimEnd_ends s : ends_in_space false (trimEnd s) = false.
Proof.
  unfold trimEnd.
  destruct (trimStart_head (rev s)) as [->|(c & r & -> & Hc)]; [done|].
  simpl. by rewrite ends_in_space_last.
Qed.

Lemma count_words_trimStart s :
  Spec.count_words false (trimStart s) = Spec.count_words false s.
Proof.
  induction s as [|c r IH]; simpl; [done|].
  destruct (is_space c) eqn:Hc; [done|]. simpl. by rewrite Hc.
Qed.

Lemma count_words_trimEnd s b :
  Spec.count_words b (trimEnd s) = Spec.count_words b s.
Proof.
  destruct (trimEnd_split s) as (ws & Hs & Hws).
  rewrite Hs at 2. by rewrite count_words_app_spaces.
Qed.

Lemma word_count_trim s : Spec.word_count (trim s) = Spec.word_count s.
Proof.
  unfold Spec.word_count, trim.
  by rewrite count_words_trimEnd, count_words_trimStart.
Qed.

(** On a text that holds a word, the pieces of the trimmed text are its
    words. *)
Lemma split_trim_length s :
  (0 < Spec.word_count s)%nat ->
  length (split_ws (trim s)) = Spec.word_count s.
Proof.
  intros Hs. rewrite <- (word_count_trim s).
  unfold Spec.word_count in Hs. rewrite <- count_words_trimStart in Hs.
  unfold trim, split_ws, Spec.word_count.
  destruct (trimStart_head s) as [E|(c & r & E & Hc)]; rewrite E in *.
  - simpl in Hs. lia.
  - rewrite trimEnd_cons by done.
    rewrite split_go_length. simpl. rewrite Hc, trimEnd_ends. simpl. lia.
Qed.

(** A text without a word still splits into one (empty) piece. *)
Lemma split_trim_blank s :
  Spec.word_count s = 0%nat -> length (split_ws (trim s)) = 1%nat.
Proof.
  unfold Spec.word_count. rewrite <- count_words_trimStart.
  unfold trim. destruct (trimStart_head s) as [->|(c & r & -> & Hc)]; [done|].
  simpl. rewrite Hc. lia.
Qed.
End Words.

(** ** The fields of the assembled result *)

Section Assembler.
Context {builtins : StringBuiltins}.
Implicit Types (env : Ambient) (test : TestInstance.t) (recallText : jsstring)
  (t : number) (prev : option SessionResult.t).

Lemma scoreSession_coverage_pct env test recallText t prev :
  SessionResult.coverage_pct (scoreSession env test recallText t prev)
  = coveragePct test recallText.
Proof. reflexivity. Qed.

Lemma scoreSession_z_coverage env test recallText t prev :
  SessionResult.z_coverage (scoreSession env test recallText t prev)
  = Num.toFixed2 (zCoverage (profile test) (coveragePct test recallText)).
Proof. reflexivity. Qed.

Lemma scoreSession_wpm_effective env test recallText t prev :
  SessionResult.wpm_effective (scoreSession env test recallText t prev)
  = wpmEffective test t.
Proof. reflexivity. Qed.

Lemma scoreSession_z_wpm env test recallText t prev :
  SessionResult.z_wpm (scoreSession env test recallText t prev)
  = fixed2_if_truthy (zWpm (profile test) (wpmEffective test t)).
Proof. reflexivity. Qed.

Lemma scoreSession_rci_coverage env test recallText t prev :
  SessionResult.rci_coverage (scoreSession env test recallText t prev)
  = fixed2_if_truthy
      (rciCoverage (profile test) prev (coveragePct test recallText)).
Proof. reflexivity. Qed.

Lemma scoreSession_qualitative_label env test recallText t prev :
  SessionResult.qualitative_label (scoreSession env test recallText t prev)
  = qualitativeLabel (profile test)
      (zCoverage (profile test) (coveragePct test recallText)).
Proof. reflexivity. Qed.

(** When the optional scores are present: the profile resolves (and a
    previous session was passed) and the raw score is neither 0 nor NaN. *)
Lemma scoreSession_z_wpm_present env test recallText t prev :
  is_Some (SessionResult.z_wpm (scoreSession env test recallText t prev))
  <-> exists p,
        profile test = Some p
        /\ Num.truthy
             (Num.div
                (Num.sub (wpmEffective test t) (NormativeProfile.mean_wpm p))
                (NormativeProfile.sd_wpm p)) = true.
Proof.
  rewrite scoreSession_z_wpm. unfold zWpm, fixed2_if_truthy.
  destruct (profile test) as [p|].
  - destruct (Num.truthy _) eqn:E.
    + split; [intros _; by exists p|by eexists].
    + split; [by intros []|]. intros (p' & [= <-] & H). congruence.
  - split; [by intros []|by intros (p' & ? & _)].
Qed.

Lemma scoreSession_rci_coverage_present env test recallText t prev :
  is_Some (SessionResult.rci_coverage
             (scoreSession env test recallText t prev))
  <-> exists p s,
        profile test = Some p /\ prev = Some s
        /\ Num.truthy
             (Num.div
                (Num.sub (coveragePct test recallText)
                         (SessionResult.coverage_pct s))
                (sDiff p)) = true.
Proof.
  rewrite scoreSession_rci_coverage. unfold rciCoverage, fixed2_if_truthy.
  destruct (profile test) as [p|], prev as [s|];
    try (split; [by intros []|by intros (? & ? & ? & ? & _)]).
  destruct (Num.truthy _) eqn:E.
  - split; [intros _; by exists p, s|by eexists].
  - split; [by intros []|]. intros (p' & s' & [= <-] & [= <-] & H). congruence.
Qed.

(** A difference of a number with itself is 0 or NaN, and so is its quotient
    by any number: the final conditional takes it for an absent value. *)
Lemma div_sub_diag_falsy (x y : number) :
  Num.truthy (Num.div (Num.sub x x) y) = false.
Proof.
  assert (Num.sub x x = S754_zero false \/ Num.sub x x = S754_nan) as [-> | ->].
  { destruct x as [[]|[]| |s m e]; auto. left.
    unfold Num.sub, SFsub. by rewrite Z.sub_diag. }
  - by destruct y as [[]|[]| |[] ? ?].
  - done.
Qed.

(** A reading speed equal to the profile's mean leaves z_wpm absent. *)
Lemma z_wpm_absent_at_mean env test recallText t prev p :
  profile test = Some p ->
  wpmEffective test t = NormativeProfile.mean_wpm p ->
  SessionResult.z_wpm (scoreSession env test recallText t prev) = None.
Proof.
  intros Hp Hw. rewrite scoreSession_z_wpm, Hp. simpl.
  by rewrite Hw, div_sub_diag_falsy.
Qed.

(** A coverage equal to the previous session's leaves rci_coverage absent. *)
Lemma rci_coverage_absent_when_unchanged env test recallText t s :
  coveragePct test recallText = SessionResult.coverage_pct s ->
  SessionResult.rci_coverage (scoreSession env test recallText t (Some s))
  = None.
Proof.
  intros Hc. rewrite scoreSession_rci_coverage. unfold rciCoverage.
  destruct (profile test) as [p|]; [|done]. simpl.
  by rewrite Hc, div_sub_diag_falsy.
Qed.

(** Without keypoints the coverage is 0 / 0 × 100. *)
Lemma coveragePct_no_keypoints test recallText :
  TestInstance.keypoints test = [] -> coveragePct test recallText = Num.NaN.
Proof.
  intros E. unfold coveragePct, hitCount, keypointResults. by rewrite E.
Qed.

Lemma fixed2_if_truthy_Some v x :
  fixed2_if_truthy v = Some x ->
  exists raw, v = Some raw /\ Num.truthy raw = true /\ x = Num.toFixed2 raw.
Proof.
  destruct v as [raw|]; simpl; [|done].
  destruct (Num.truthy raw) eqn:E; [|done].
  intros [= <-]. by exists raw.
Qed.
End Assembler.

(** ** The claims *)

(** C1.  For every recall token sequence and every non-empty keypoint token
    sequence, [calculateMatch] returns hit = true exactly when
    coverage_ratio >= 0.35 or at least two distinct tokens are shared.
    Here matched is the set of distinct tokens that occur in both
    sequences (the returned [matches] list them once each), and the
    numerator of coverage_ratio counts the keypoint-token occurrences, with
    their multiplicity in the keypoint sequence, that appear in the recall
    tokens, divided by the number of keypoint tokens. *)
Theorem C1_hit_rule (recall kp : list jsstring) :
  kp <> [] ->
  let r := calculateMatch recall kp in
  (hit r = true <->
     Num.ge (Spec.coverage_ratio recall kp) (Num.decimal 35 100) = true
     \/ (2 <= size (Spec.matched recall kp))%nat)
  /\ list_to_set (matches r) = Spec.matched recall kp
  /\ NoDup (matches r).
Proof.
  intros Hkp r. subst r.
  rewrite calculateMatch_hit, calculateMatch_matches.
  assert (coverageRatio recall kp = Spec.coverage_ratio recall kp) as ->.
  { unfold coverageRatio, Spec.coverage_ratio.
    rewrite matches_of_length. by destruct kp. }
  rewrite Array_from_Set_length, matches_of_set.
  split; [|split].
  - rewrite orb_true_iff, bool_decide_eq_true. tauto.
  - apply set_eq. intros x.
    by rewrite elem_of_list_to_set, Array_from_Set_elem, <- matches_of_set,
      elem_of_list_to_set.
  - apply Array_from_Set_NoDup.
Qed.

(** A keypoint of three tokens of which two are recalled. *)
Lemma C1_hit_rule_witness :
  [u "sleep"; u "consolidates"; u "memory"] <> []
  /\ hit (calculateMatch [u "memory"; u "after"; u "sleep"]
                         [u "sleep"; u "consolidates"; u "memory"]) = true.
Proof.
  split; [done|].
  apply (C1_hit_rule [u "memory"; u "after"; u "sleep"]
                     [u "sleep"; u "consolidates"; u "memory"]); [done|].
  left. vm_compute. reflexivity.
Defined.

(** C9, as the specification has it, fails: for an empty keypoint sequence
    the code divides 0 by 0, so its coverage ratio is NaN, which is neither
    the 0 the specification defines nor a finite value. *)
Lemma C9_ratio_is_not_zero :
  ~ (coverageRatio [u "memory"] [] = Spec.coverage_ratio [u "memory"] []
     /\ Num.is_finite (coverageRatio [u "memory"] []) = true).
Proof. intros [H _]. vm_compute in H. discriminate H. Qed.

(** C9, amended.  For every recall token sequence, a keypoint whose token
    sequence is empty has the coverage ratio NaN (0 / 0, not guarded); NaN
    fails the comparison with 0.35, so the keypoint does not hit by the
    ratio branch, and the evaluator returns hit = false with no matched
    token. *)
Theorem C9_empty_keypoint (recall : list jsstring) :
  coverageRatio recall [] = Num.NaN
  /\ Num.ge (coverageRatio recall []) (Num.decimal 35 100) = false
  /\ calculateMatch recall [] = {| hit := false; matches := [] |}.
Proof. by vm_compute. Qed.

(** C2.  Whenever the normative profile resolves, z_coverage is
    (coverage_pct - mean_coverage) / sd_coverage, reported with two
    decimals, and the label is chosen by the first threshold that the
    unrounded z_coverage meets: at least -1 gives "within expected range",
    else at least -2 gives "mildly reduced", otherwise "below expected
    range" (the program's literals for them are in [Spec]).  With
    mean_coverage = 65, sd_coverage = 15 and coverage_pct = 80, z_coverage
    is exactly 1 and the label is "within expected range". *)
Theorem C2_z_coverage_and_label {builtins : StringBuiltins}
    (env : Ambient) (test : TestInstance.t) (recallText : jsstring)
    (t : number) (prev : option SessionResult.t) (p : NormativeProfile.t) :
  profile test = Some p ->
  let r := scoreSession env test recallText t prev in
  let z :=
    Num.div
      (Num.sub (SessionResult.coverage_pct r)
               (NormativeProfile.mean_coverage p))
      (NormativeProfile.sd_coverage p) in
  zCoverage (profile test) (coveragePct test recallText) = z
  /\ SessionResult.z_coverage r = Num.toFixed2 z
  /\ SessionResult.qualitative_label r
     = (if Num.ge z (Num.of_Z (-1)) then Spec.within_expected_range
        else if Num.ge z (Num.of_Z (-2)) then Spec.mildly_reduced
        else Spec.below_expected_range)
  /\ (NormativeProfile.mean_coverage p = Num.of_Z 65 ->
      NormativeProfile.sd_coverage p = Num.of_Z 15 ->
      SessionResult.coverage_pct r = Num.of_Z 80 ->
      z = Num.of_Z 1
      /\ SessionResult.z_coverage r = Num.of_Z 1
      /\ SessionResult.qualitative_label r = Spec.within_expected_range).
Proof.
  intros Hp r z. subst r z.
  rewrite scoreSession_coverage_pct, scoreSession_z_coverage,
    scoreSession_qualitative_label, Hp.
  do 3 (split; [reflexivity|]).
  intros Hm Hs Hc. simpl. rewrite Hm, Hs, Hc. by vm_compute.
Qed.

(** Four keypoints out of five against the profile [adult_en_us_general]
    (mean 65, SD 15): coverage 80 and z_coverage 1. *)
Lemma C2_z_coverage_and_label_witness :
  exists p,
    profile Examples.test_five = Some p
    /\ SessionResult.z_coverage
         (Examples.run Examples.test_five Examples.recall_four
            (Num.of_Z 40) None) = Num.of_Z 1.
Proof.
  eexists. split; [vm_compute; reflexivity|].
  eapply (C2_z_coverage_and_label (builtins := ascii_builtins) Examples.env
            Examples.test_five Examples.recall_four (Num.of_Z 40) None);
    vm_compute; reflexivity.
Defined.

(** C6.  When normative_profile_id does not resolve, [scoreSession] still
    returns a result, with z_coverage = 0, z_wpm absent, rci_coverage
    absent also when a previous session was passed, and the label
    "normative data unavailable" (in the program's wording,
    [Spec.normative_data_unavailable]). *)
Theorem C6_missing_profile {builtins : StringBuiltins}
    (env : Ambient) (test : TestInstance.t) (recallText : jsstring)
    (t : number) (prev : option SessionResult.t) :
  profile test = None ->
  let r := scoreSession env test recallText t prev in
  SessionResult.z_coverage r = Num.zero
  /\ SessionResult.z_wpm r = None
  /\ SessionResult.rci_coverage r = None
  /\ SessionResult.qualitative_label r = Spec.normative_data_unavailable.
Proof.
  intros Hp r. subst r.
  rewrite scoreSession_z_coverage, scoreSession_z_wpm,
    scoreSession_rci_coverage, scoreSession_qualitative_label, Hp.
  by repeat split.
Qed.

(** The identifier [custom_profile] is not in [NORMATIVE_PROFILES]; the
    previous session is one the engine produced. *)
Lemma C6_missing_profile_witness :
  profile Examples.test_unknown_profile = None
  /\ SessionResult.rci_coverage
       (Examples.run Examples.test_unknown_profile Examples.recall_four
          (Num.of_Z 40)
          (Some (Examples.run Examples.test_unknown_profile
                   Examples.recall_one (Num.of_Z 55) None))) = None.
Proof.
  split; [reflexivity|].
  eapply (C6_missing_profile (builtins := ascii_builtins) Examples.env
            Examples.test_unknown_profile Examples.recall_four).
  reflexivity.
Defined.

(** ** Reading speed *)

Section ReadingSpeed.
Implicit Types (test : TestInstance.t) (t : number).

Lemma safeTime_max t : safeTime t = Spec.max t (Num.of_Z 5).
Proof. by destruct t as [[]|[]| |[] m e]. Qed.

Lemma passageWordCount_words test :
  (0 < Spec.word_count (TestInstance.passage test))%nat ->
  passageWordCount test = Spec.word_count (TestInstance.passage test).
Proof. apply split_trim_length. Qed.

Lemma passageWordCount_blank test :
  Spec.word_count (TestInstance.passage test) = 0%nat ->
  passageWordCount test = 1%nat.
Proof. apply split_trim_blank. Qed.
End ReadingSpeed.

(** C5: the code on a passage without words.  The claim's formula gives
    round(0 / safe_time_sec × 60) = 0 there; the code counts one word,
    since the empty string splits into one empty piece, and reports
    round(1 / safe_time_sec × 60), which is 12 for every elapsed time
    under the floor of 5 seconds. *)
Theorem C5_wordless_passage {builtins : StringBuiltins}
    (env : Ambient) (test : TestInstance.t) (recallText : jsstring)
    (t : number) (prev : option SessionResult.t) :
  Spec.word_count (TestInstance.passage test) = 0%nat ->
  let r := scoreSession env test recallText t prev in
  SessionResult.wpm_effective r
  = Num.round
      (Num.mul (Num.div (Num.of_Z 1) (Spec.max t (Num.of_Z 5)))
               (Num.of_Z 60))
  /\ (Num.lt t (Num.of_Z 5) = true ->
      SessionResult.wpm_effective r = Num.of_Z 12
      /\ Spec.wpm_effective (TestInstance.passage test) t = Num.zero).
Proof.
  intros Hw r. subst r. rewrite scoreSession_wpm_effective.
  unfold wpmEffective, Spec.wpm_effective.
  rewrite passageWordCount_blank, Hw, <- safeTime_max by done.
  split; [done|]. intros Ht. unfold safeTime. rewrite Ht.
  split; by vm_compute.
Qed.

(** The empty passage read in 2 seconds. *)
Lemma C5_wordless_passage_witness :
  SessionResult.wpm_effective
    (Examples.run Examples.test_empty_passage Examples.recall_one
       (Num.of_Z 2) None) = Num.of_Z 12
  /\ Spec.wpm_effective (TestInstance.passage Examples.test_empty_passage)
       (Num.of_Z 2) = Num.zero.
Proof.
  destruct (C5_wordless_passage (builtins := ascii_builtins) Examples.env
              Examples.test_empty_passage Examples.recall_one (Num.of_Z 2)
              None eq_refl) as [_ H].
  apply H. reflexivity.
Defined.

(** C4: the code at the degenerate inputs.  With no keypoint the coverage
    is 0 / 0 × 100, that is NaN and not 0 (and the label is then the lowest
    one); with an empty passage, which has no word, the word count is 1
    and wpm_effective is 12 for a reading time under the floor, not 0. *)
Theorem C4_degenerate_inputs :
  TestInstance.keypoints Examples.test_no_keypoints = []
  /\ SessionResult.coverage_pct
       (Examples.run Examples.test_no_keypoints Examples.recall_one
          (Num.of_Z 40) None) = Num.NaN
  /\ SessionResult.qualitative_label
       (Examples.run Examples.test_no_keypoints Examples.recall_one
          (Num.of_Z 40) None) = Spec.below_expected_range
  /\ Spec.word_count (TestInstance.passage Examples.test_empty_passage) = 0%nat
  /\ passageWordCount Examples.test_empty_passage = 1%nat
  /\ SessionResult.wpm_effective
       (Examples.run Examples.test_empty_passage Examples.recall_one
          (Num.of_Z 2) None) = Num.of_Z 12.
Proof. by vm_compute. Qed.

(** C3: the code when the coverage has not changed.  The profile resolves
    and a previous session, produced by the engine for the same test and
    recall, is passed; the raw index is 0, which the final conditional
    takes for an absent value, so rci_coverage is absent. *)
Theorem C3_rci_absent_when_unchanged :
  let prev :=
    Examples.run Examples.test_five Examples.recall_four (Num.of_Z 45) None in
  let r :=
    Examples.run Examples.test_five Examples.recall_four (Num.of_Z 40)
      (Some prev) in
  profile Examples.test_five <> None
  /\ rciCoverage (profile Examples.test_five) (Some prev)
       (coveragePct (builtins := ascii_builtins) Examples.test_five
          Examples.recall_four) = Some Num.zero
  /\ SessionResult.rci_coverage r = None.
Proof. by vm_compute. Qed.

(** C7: the code when the reading speed equals the profile's mean.
    Fifteen words in five seconds are 180 words per minute, the mean of
    [adult_pt_br_general]; the raw z_wpm is 0, which the final conditional
    takes for an absent value, so z_wpm is absent although the profile
    resolves. *)
Theorem C7_z_wpm_absent_at_mean :
  let r :=
    Examples.run Examples.test_fifteen_words Examples.recall_one
      (Num.of_Z 5) None in
  profile Examples.test_fifteen_words <> None
  /\ SessionResult.wpm_effective r = Num.of_Z 180
  /\ zWpm (profile Examples.test_fifteen_words)
       (SessionResult.wpm_effective r) = Some Num.zero
  /\ SessionResult.z_wpm r = None.
Proof. by vm_compute. Qed.

(** C8, as the specification has it, fails for coverage_pct: with one
    keypoint hit out of three the result carries 1 / 3 × 100 at full
    precision (33.33333333333333), not its rounding to two decimals
    (33.33). *)
Lemma C8_coverage_pct_is_not_rounded :
  let r :=
    Examples.run Examples.test_three Examples.recall_one (Num.of_Z 40) None in
  SessionResult.coverage_pct r
  = Num.mul (Num.div (Num.of_Z 1) (Num.of_Z 3)) (Num.of_Z 100)
  /\ Num.toFixed2 (SessionResult.coverage_pct r) = Num.decimal 3333 100
  /\ ~ (SessionResult.coverage_pct r
        = Num.toFixed2
            (coveragePct (builtins := ascii_builtins) Examples.test_three
               Examples.recall_one)).
Proof.
  split; [by vm_compute|]. split; [by vm_compute|].
  intros H. vm_compute in H. discriminate H.
Qed.

(** C8, amended.  The standardized scores of the assembled result —
    z_coverage, and z_wpm and rci_coverage when present — are rounded to
    two decimals; coverage_pct is reported at full precision and
    wpm_effective rounded to an integer.  The intermediate computations
    use the unrounded values: the label is selected from the unrounded
    z_coverage, and the RCI difference is taken between the unrounded
    coverage and the previous session's coverage_pct. *)
Theorem C8_reported_precision {builtins : StringBuiltins}
    (env : Ambient) (test : TestInstance.t) (recallText : jsstring)
    (t : number) (prev : option SessionResult.t) :
  let r := scoreSession env test recallText t prev in
  let coverage := coveragePct test recallText in
  let z := zCoverage (profile test) coverage in
  SessionResult.z_coverage r = Num.toFixed2 z
  /\ (forall v, SessionResult.z_wpm r = Some v ->
        exists raw,
          zWpm (profile test) (SessionResult.wpm_effective r) = Some raw
          /\ v = Num.toFixed2 raw)
  /\ (forall v, SessionResult.rci_coverage r = Some v ->
        exists p s,
          profile test = Some p /\ prev = Some s
          /\ v = Num.toFixed2
                   (Num.div
                      (Num.sub coverage (SessionResult.coverage_pct s))
                      (sDiff p)))
  /\ SessionResult.coverage_pct r = coverage
  /\ SessionResult.wpm_effective r
     = Num.round
         (Num.mul
            (Num.div (Num.of_nat (passageWordCount test)) (safeTime t))
            (Num.of_Z 60))
  /\ SessionResult.qualitative_label r = qualitativeLabel (profile test) z.
Proof.
  intros r coverage z. subst r coverage z.
  split; [reflexivity|]. split; [|split; [|by repeat split]].
  - intros v Hv. rewrite scoreSession_z_wpm in Hv.
    apply fixed2_if_truthy_Some in Hv as (raw & Hraw & _ & ->).
    by exists raw.
  - intros v Hv. rewrite scoreSession_rci_coverage in Hv.
    apply fixed2_if_truthy_Some in Hv as (raw & Hraw & _ & ->).
    unfold rciCoverage in Hraw.
    destruct (profile test) as [p|], prev as [s|]; try done.
    injection Hraw as <-. by exists p, s.
Qed.

(** ** Tokens *)

Section Tokens.
Context {builtins : StringBuiltins}.

Lemma split_go_pieces s : forall b p c,
  p ∈ split_go b s -> c ∈ p -> c ∈ s /\ is_space c = false.
Proof.
  induction s as [|a s IH]; intros b p c; simpl.
  - intros ->%list_elem_of_singleton Hc. by apply elem_of_nil in Hc.
  - destruct (is_space a) eqn:Ha.
    + intros Hp Hc.
      assert (p ∈ split_go true s) as Hp'.
      { destruct b; [done|]. apply elem_of_cons in Hp as [->|]; [|done].
        by apply elem_of_nil in Hc. }
      destruct (IH _ _ _ Hp' Hc). split; [by right|done].
    + destruct (split_go false s) as [|q qs] eqn:E.
      * intros ->%list_elem_of_singleton ->%list_elem_of_singleton.
        split; [by left|done].
      * intros [->|Hp]%elem_of_cons Hc.
        -- apply elem_of_cons in Hc as [->|Hc]; [split; [by left|done]|].
           destruct (IH false q c); [rewrite E; by left|done|].
           split; [by right|done].
        -- destruct (IH false p c); [rewrite E; by right|done|].
           split; [by right|done].
Qed.

(** Every token is made of the code units that [\w] accepts: ASCII letters,
    digits and the underscore. *)
Lemma tokenize_word_chars text language tok c :
  tok ∈ tokenize text language -> c ∈ tok -> is_word c = true.
Proof.
  unfold tokenize.
  intros [_ [_ Htok]%list_elem_of_filter]%list_elem_of_filter Hc.
  destruct (split_go_pieces _ _ _ _ Htok Hc) as [Hin Hsp].
  apply list_elem_of_In, filter_In in Hin as [_ Hw].
  unfold is_word_or_space in Hw. rewrite Hsp, orb_false_r in Hw. done.
Qed.
End Tokens.

(** C10: the code on a text with an underscore.  The class [^\w\s] spares
    the underscore, which is neither alphanumeric nor white space, so it is
    not stripped and the token [quick_fox] holds it. *)
Theorem C10_underscore_survives {builtins : StringBuiltins} :
  tokenize (u "The Quick_Fox jumps!") en_US = [u "quick_fox"; u "jumps"]
  /\ (95%N ∈ u "quick_fox"
      /\ Spec.is_alphanumeric 95 = false /\ is_space 95 = false).
Proof.
  split; [|by vm_compute; repeat split; try done; set_solver].
  unfold tokenize.
  rewrite toLowerCase_ascii by (vm_compute; repeat constructor).
  rewrite normalizeNFD_ascii by (vm_compute; repeat constructor).
  by vm_compute.
Qed.

(** ** Worked examples *)

(** Rounding: [Math.round] breaks ties upwards; [toFixed] works on the
    exact binary value, so 1.005 (which lies below its decimal numeral)
    prints as 1.00. *)
Example round_ties :
  Num.round (Num.decimal 25 10) = Num.of_Z 3
  /\ Num.round (Num.decimal (-25) 10) = Num.of_Z (-2)
  /\ Num.round (Num.decimal (-4) 10) = S754_zero true.
Proof. by vm_compute. Qed.

Example toFixed2_samples :
  Num.toFixed2 (Num.decimal 1005 1000) = Num.of_Z 1
  /\ Num.toFixed2 (Num.div (Num.of_Z 2) (Num.of_Z 3)) = Num.decimal 67 100
  /\ Num.toFixed2 (Num.decimal (-1) 1000) = S754_zero true
  /\ Num.toFixed2 Num.NaN = Num.NaN.
Proof. by vm_compute. Qed.

(** Hit rule at the boundary: one token of three is a ratio of 1/3, below
    0.35, and a single shared token: no hit.  Two of ten is a ratio of 0.2
    but two shared tokens: hit. *)
Example hit_one_of_three :
  calculateMatch [u "sleep"] [u "sleep"; u "consolidates"; u "memory"]
  = {| hit := false; matches := [u "sleep"] |}.
Proof. by vm_compute. Qed.

Example hit_two_of_ten :
  hit (calculateMatch [u "memory"; u "sleep"]
         [u "sleep"; u "consolidates"; u "motor"; u "memory"; u "during";
          u "deep"; u "slow"; u "wave"; u "night"; u "phases"]) = true.
Proof. by vm_compute. Qed.

(** A repeated keypoint token counts each time in the ratio, once in the
    matches. *)
Example hit_repeated_token :
  calculateMatch [u "sleep"] [u "sleep"; u "deep"; u "sleep"; u "phases"]
  = {| hit := true; matches := [u "sleep"] |}.
Proof. by vm_compute. Qed.

(** Coverage aggregation: three keypoints hit out of six are 50 exactly. *)
Example coverage_three_of_six :
  SessionResult.coverage_pct
    (Examples.run Examples.test_six Examples.recall_three (Num.of_Z 40) None)
  = Num.of_Z 50.
Proof. by vm_compute. Qed.

(** Reliable change: SD 15 and reliability 0.8, from a coverage of 50 to a
    coverage of 80, give 3.16. *)
Example rci_from_50_to_80 :
  SessionResult.rci_coverage
    (Examples.run Examples.test_five Examples.recall_four (Num.of_Z 40)
       (Some (Examples.run Examples.test_six Examples.recall_three
                (Num.of_Z 40) None)))
  = Some (Num.decimal 316 100).
Proof. by vm_compute. Qed.

(** Stop words and short words are dropped, case is folded. *)
Example tokenize_sample {builtins : StringBuiltins} :
  tokenize (u "The brain is PLASTIC, it can adapt.") en_US
  = [u "brain"; u "plastic"; u "can"; u "adapt"].
Proof.
  unfold tokenize.
  rewrite toLowerCase_ascii by (vm_compute; repeat constructor).
  rewrite normalizeNFD_ascii by (vm_compute; repeat constructor).
  by vm_compute.
Qed.

(** ** Small integers and quotients *)

Section SmallIntegers.
Import Num.

Lemma digits2_pos_size p : digits2_pos p = Pos.size p.
Proof. induction p; simpl; by f_equal. Qed.

Lemma digits2_pos_bound p k :
  Z.pos p < 2 ^ k -> Z.pos (digits2_pos p) <= k.
Proof.
  intros Hp. rewrite digits2_pos_size.
  destruct (Z.le_gt_cases (Z.pos (Pos.size p)) k) as [|Hk]; [done|].
  assert (0 <= k) as Hk0.
  { destruct (Z.le_gt_cases 0 k); [done|]. rewrite Z.pow_neg_r in Hp; lia. }
  pose proof (Pos.size_le p) as Hle.
  apply Pos2Z.pos_le_pos in Hle. rewrite Pos2Z.inj_pow in Hle.
  assert (2 ^ (k + 1) <= 2 ^ Z.pos (Pos.size p))
    by (apply Z.pow_le_mono_r; lia).
  rewrite Z.pow_add_r in * by lia. lia.
Qed.

Lemma iter_xO_spec p k :
  Z.pos (Pos.iter xO p k) = Z.pos p * 2 ^ Z.pos k
  /\ Z.pos (digits2_pos (Pos.iter xO p k)) = Z.pos (digits2_pos p) + Z.pos k.
Proof.
  induction k as [|k [IH1 IH2]] using Pos.peano_ind.
  - simpl. lia.
  - rewrite Pos.iter_succ. simpl digits2_pos.
    rewrite Pos2Z.inj_xO, !Pos2Z.inj_succ, IH1, IH2.
    rewrite Z.pow_succ_r by lia. lia.
Qed.

(** A mantissa of 53 bits at an exponent in range is left as it is. *)
Lemma binary_round_aux_canonical s m e :
  Z.pos (digits2_pos m) = 53 -> -1074 <= e <= 971 ->
  binary_round_aux prec emax s (Z.pos m) e loc_Exact = S754_finite s m e.
Proof.
  intros Hd He. unfold binary_round_aux, shr_fexp. simpl Zdigits2.
  rewrite Hd.
  assert (fexp prec emax (53 + e) - e = 0) as ->
    by (unfold fexp, SpecFloat.emin, prec, emax; lia).
  simpl. rewrite Hd.
  assert (fexp prec emax (53 + e) - e = 0) as ->
    by (unfold fexp, SpecFloat.emin, prec, emax; lia).
  simpl. destruct (Z.leb_spec e (emax - prec)); [done|].
  unfold prec, emax in *. lia.
Qed.

(** Integers below 2^53 are represented exactly. *)
Lemma of_Z_small p :
  Z.pos p < 2 ^ 53 ->
  exists m e,
    of_Z (Z.pos p) = S754_finite false m e
    /\ -52 <= e <= 0 /\ Z.pos m = Z.pos p * 2 ^ (- e)
    /\ Z.pos (digits2_pos m) = 53.
Proof.
  intros Hp. pose proof (digits2_pos_bound p 53 Hp) as Hd.
  unfold of_Z, binary_normalize, binary_round.
  assert (fexp prec emax (Z.pos (digits2_pos p) + 0)
          = Z.pos (digits2_pos p) - 53) as ->
    by (unfold fexp, SpecFloat.emin, prec, emax; lia).
  unfold shl_align.
  destruct (Z.pos (digits2_pos p) - 53 - 0) as [|k|k] eqn:Ek; [|lia|].
  - exists p, 0. rewrite binary_round_aux_canonical by lia.
    repeat split; lia.
  - destruct (iter_xO_spec p k) as [Hv Hdk].
    exists (Pos.iter xO p k), (Z.pos (digits2_pos p) - 53).
    rewrite binary_round_aux_canonical by lia.
    repeat split; try lia.
    rewrite Hv. f_equal. f_equal. lia.
Qed.

Lemma div_eucl_div_mod a b : Z.div_eucl a b = (a / b, a mod b).
Proof. unfold Z.div, Z.modulo. by destruct (Z.div_eucl a b). Qed.

(** A finite number divided by itself is 1. *)
Lemma div_diag s m e :
  div (S754_finite s m e) (S754_finite s m e) = of_Z 1.
Proof.
  unfold div, SFdiv, SFdiv_core_binary.
  rewrite !Z.sub_diag.
  change (Z.min (fexp prec emax 0) 0) with (-53).
  change (0 - -53) with 53.
  rewrite div_eucl_div_mod, Z.shiftl_mul_pow2 by lia.
  rewrite (Z.mul_comm (Z.pos m)), Z.div_mul, Z.mod_mul by lia.
  rewrite xorb_nilpotent.
  assert (new_location (Z.pos m) 0 = loc_Exact) as ->
    by (unfold new_location; by destruct (Z.even _)).
  by vm_compute.
Qed.
End SmallIntegers.

(** ** The match evaluator on whole recalls *)

Section MatchExtras.
Implicit Types recall kp xs seen : list jsstring.

Lemma set_insert_all_sublist xs : forall seen,
  set_insert_all seen xs `sublist_of` xs.
Proof.
  induction xs as [|x xs IH]; intros seen; simpl; [done|].
  case_decide; [by apply sublist_cons|by apply sublist_skip].
Qed.

Lemma of_nat_finite n :
  (0 < n)%nat -> Z.of_nat n < 2 ^ 53 ->
  exists m e, Num.of_nat n = S754_finite false m e.
Proof.
  intros Hn Hb. unfold Num.of_nat.
  destruct (Z.of_nat n) as [|p|p] eqn:E; [lia| |lia].
  destruct (of_Z_small p Hb) as (m & e & -> & _). eauto.
Qed.

(** Nothing divided by a count is below every positive threshold. *)
Lemma ratio_of_nothing n m e :
  Num.ge (Num.div (Num.of_nat 0) (Num.of_nat n)) (S754_finite false m e)
  = false.
Proof.
  pose proof (of_Z_sign_clear (Z.of_nat n) ltac:(lia)) as Hs.
  unfold Num.of_nat at 2.
  by destruct (Num.of_Z (Z.of_nat n)) as [[]|[]| |[] ? ?].
Qed.

(** X4.  [calculateMatch] reads the recall tokens as a set: two recalls
    with the same tokens, in any order and with any repetitions, give the
    same hit and the same matches. *)
Theorem calculateMatch_recall_set recall1 recall2 kp :
  (forall t, t ∈ recall1 <-> t ∈ recall2) ->
  calculateMatch recall1 kp = calculateMatch recall2 kp.
Proof.
  intros H.
  assert (matches_of recall1 kp = matches_of recall2 kp) as E
    by (apply filter_ext_elem; intros x _; apply H).
  unfold calculateMatch, coverageRatio. by rewrite E.
Qed.

(** Without a match the ratio 0/n (or 0/0) never reaches the threshold. *)
Lemma hit_has_match recall kp :
  hit (calculateMatch recall kp) = true -> matches_of recall kp <> [].
Proof.
  rewrite calculateMatch_hit. unfold coverageRatio.
  destruct (matches_of recall kp) as [|t ms] eqn:E; [|done].
  change (Num.decimal 35 100)
    with (S754_finite false 6305039478318694 (-54)).
  simpl length. by rewrite ratio_of_nothing.
Qed.

(** X5.  A keypoint is hit only if one of its tokens occurs in the recall:
    without a shared token (an empty recall, an empty keypoint) there is no
    hit. *)
Theorem hit_needs_shared_token recall kp :
  hit (calculateMatch recall kp) = true -> exists t, t ∈ kp /\ t ∈ recall.
Proof.
  intros Hh. apply hit_has_match in Hh.
  destruct (matches_of recall kp) as [|t ms] eqn:E; [done|].
  exists t.
  assert (t ∈ matches_of recall kp) as Ht by (rewrite E; by left).
  apply list_elem_of_filter in Ht. tauto.
Qed.

(** X6.  A keypoint with at least one token (and fewer than 2^32, the bound
    of an array) all of whose tokens occur in the recall has the coverage
    ratio 1 exactly and is hit. *)
Theorem hit_when_all_tokens_recalled recall kp :
  kp <> [] -> Z.of_nat (length kp) < 2 ^ 32 ->
  (forall t, t ∈ kp -> t ∈ recall) ->
  coverageRatio recall kp = Num.of_Z 1
  /\ hit (calculateMatch recall kp) = true.
Proof.
  intros Hkp Hlen Hall.
  assert (matches_of recall kp = kp) as E.
  { unfold matches_of. clear Hkp Hlen.
    induction kp as [|a kp IH]; [done|].
    rewrite filter_cons_True by (apply Hall; by left).
    f_equal. apply IH. intros t Ht. apply Hall. by right. }
  assert (coverageRatio recall kp = Num.of_Z 1) as Hr.
  { unfold coverageRatio. rewrite E.
    destruct (of_nat_finite (length kp)) as (m & e & ->).
    - destruct kp; [done|simpl; lia].
    - assert (2 ^ 32 < 2 ^ 53) by done. lia.
    - apply div_diag. }
  split; [done|]. rewrite calculateMatch_hit, Hr. done.
Qed.
End MatchExtras.

(** ** The assembled session *)

Section ScoreExtras.
Context {builtins : StringBuiltins}.
Implicit Types (env : Ambient) (test : TestInstance.t) (recallText : jsstring)
  (t : number) (prev : option SessionResult.t).

(** X7.  The keypoint results follow the keypoints of the test one to one
    and in order: each carries the id and the text of its keypoint, and its
    matched tokens are distinct, occur among the recall tokens, and are
    tokens of the keypoint's text in the order of that text. *)
Theorem keypoint_results_aligned env test recallText t prev :
  Forall2
    (fun kp kr =>
       KeypointResult.keypoint_id kr = Keypoint.id kp
       /\ KeypointResult.text kr = Keypoint.text kp
       /\ KeypointResult.matched_tokens kr
          `sublist_of` tokenize (Keypoint.text kp) (TestInstance.language test)
       /\ NoDup (KeypointResult.matched_tokens kr)
       /\ forall tok, tok ∈ KeypointResult.matched_tokens kr ->
            tok ∈ tokenize recallText (TestInstance.language test))
    (TestInstance.keypoints test)
    (SessionResult.keypoint_results
       (scoreSession env test recallText t prev)).
Proof.
  change (SessionResult.keypoint_results _)
    with (keypointResults test recallText).
  unfold keypointResults.
  induction (TestInstance.keypoints test) as [|kp kps IH]; cbn [map];
    constructor; [|done].
  split; [done|]. split; [done|]. cbn [KeypointResult.matched_tokens].
  rewrite calculateMatch_matches.
  split; [|split].
  - etrans; [apply set_insert_all_sublist|apply sublist_filter].
  - apply Array_from_Set_NoDup.
  - intros tok Htok. rewrite Array_from_Set_elem in Htok.
    apply list_elem_of_filter in Htok. tauto.
Qed.

(** X8.  Of a test, [scoreSession] reads the id, the language, the
    passage, the profile id and, of each keypoint, the id and the text: the
    stored [tokens] of the keypoints (they are computed again from the
    text), the topic, the complexity, the target words, the allowed time and
    the creation time have no influence on the result. *)
Theorem scoreSession_reads_id_and_text env test1 test2 recallText t prev :
  TestInstance.id test1 = TestInstance.id test2 ->
  TestInstance.language test1 = TestInstance.language test2 ->
  TestInstance.passage test1 = TestInstance.passage test2 ->
  TestInstance.normative_profile_id test1
  = TestInstance.normative_profile_id test2 ->
  map (fun kp => (Keypoint.id kp, Keypoint.text kp))
      (TestInstance.keypoints test1)
  = map (fun kp => (Keypoint.id kp, Keypoint.text kp))
      (TestInstance.keypoints test2) ->
  scoreSession env test1 recallText t prev
  = scoreSession env test2 recallText t prev.
Proof.
  intros Hid Hl Hp Hn Hk.
  assert (keypointResults test1 recallText = keypointResults test2 recallText)
    as Hkr.
  { unfold keypointResults. rewrite Hl.
    set (g := fun p : Z * jsstring =>
      {| KeypointResult.keypoint_id := p.1;
         KeypointResult.text := p.2;
         KeypointResult.hit :=
           hit (calculateMatch
                  (tokenize recallText (TestInstance.language test2))
                  (tokenize p.2 (TestInstance.language test2)));
         KeypointResult.matched_tokens :=
           matches (calculateMatch
                      (tokenize recallText (TestInstance.language test2))
                      (tokenize p.2 (TestInstance.language test2))) |}).
    transitivity
      (map g (map (fun kp => (Keypoint.id kp, Keypoint.text kp))
                  (TestInstance.keypoints test1))).
    - by rewrite map_map.
    - by rewrite Hk, map_map. }
  assert (length (TestInstance.keypoints test1)
          = length (TestInstance.keypoints test2)) as Hlen.
  { apply (f_equal (@length _)) in Hk. by rewrite !length_map in Hk. }
  unfold scoreSession, coveragePct, hitCount, profile, wpmEffective,
    passageWordCount.
  by rewrite Hkr, Hlen, Hid, Hp, Hn.
Qed.

Lemma hitCount_none test recallText :
  Forall (fun kr => KeypointResult.hit kr = false)
         (keypointResults test recallText) ->
  hitCount test recallText = 0%nat.
Proof.
  unfold hitCount. induction 1 as [|kr krs Hkr _ IH]; [done|].
  simpl. by rewrite Hkr.
Qed.

Lemma hitCount_all test recallText :
  Forall (fun kr => KeypointResult.hit kr = true)
         (keypointResults test recallText) ->
  hitCount test recallText = length (TestInstance.keypoints test).
Proof.
  intros H. unfold hitCount.
  assert (List.filter KeypointResult.hit (keypointResults test recallText)
          = keypointResults test recallText) as ->.
  { induction H as [|kr krs Hkr _ IH]; [done|]. simpl. by rewrite Hkr, IH. }
  unfold keypointResults. by rewrite length_map.
Qed.

(** X9.  When no token of any keypoint occurs in the recall (an empty
    recall, for one), no keypoint is hit and, for a test with at least one
    keypoint, coverage_pct is 0. *)
Theorem coverage_zero_without_overlap env test recallText t prev :
  TestInstance.keypoints test <> [] ->
  Z.of_nat (length (TestInstance.keypoints test)) < 2 ^ 32 ->
  (forall kp tok,
     kp ∈ TestInstance.keypoints test ->
     tok ∈ tokenize (Keypoint.text kp) (TestInstance.language test) ->
     tok ∉ tokenize recallText (TestInstance.language test)) ->
  let r := scoreSession env test recallText t prev in
  Forall (fun kr => KeypointResult.hit kr = false)
         (SessionResult.keypoint_results r)
  /\ SessionResult.coverage_pct r = Num.zero.
Proof.
  intros Hne Hlen Hno r. subst r.
  change (SessionResult.keypoint_results _)
    with (keypointResults test recallText).
  rewrite scoreSession_coverage_pct.
  assert (Forall (fun kr => KeypointResult.hit kr = false)
                 (keypointResults test recallText)) as Hall.
  { unfold keypointResults. apply Forall_forall. intros kr Hkr.
    apply list_elem_of_In, in_map_iff in Hkr as (kp & <- & Hkp).
    apply list_elem_of_In in Hkp. cbn [KeypointResult.hit].
    destruct (hit _) eqn:Hh; [|done].
    apply hit_has_match in Hh.
    destruct (matches_of _ _) as [|tok ms] eqn:E; [done|].
    assert (tok ∈ matches_of
              (tokenize recallText (TestInstance.language test))
              (tokenize (Keypoint.text kp) (TestInstance.language test)))
      as Ht by (rewrite E; by left).
    apply list_elem_of_filter in Ht as [H2 H1].
    by destruct (Hno kp tok). }
  split; [done|]. unfold coveragePct. rewrite hitCount_none by done.
  destruct (of_nat_finite (length (TestInstance.keypoints test)))
    as (m & e & ->).
  - destruct (TestInstance.keypoints test); [done|simpl; lia].
  - assert (2 ^ 32 < 2 ^ 53) by done. lia.
  - done.
Qed.

(** X10.  When every keypoint of a test with at least one keypoint is hit,
    coverage_pct is 100 exactly. *)
Theorem coverage_full_when_all_hit env test recallText t prev :
  TestInstance.keypoints test <> [] ->
  Z.of_nat (length (TestInstance.keypoints test)) < 2 ^ 32 ->
  let r := scoreSession env test recallText t prev in
  Forall (fun kr => KeypointResult.hit kr = true)
         (SessionResult.keypoint_results r) ->
  SessionResult.coverage_pct r = Num.of_Z 100.
Proof.
  intros Hne Hlen r Hall. subst r.
  rewrite scoreSession_coverage_pct. unfold coveragePct.
  rewrite hitCount_all by done.
  destruct (of_nat_finite (length (TestInstance.keypoints test)))
    as (m & e & ->).
  - destruct (TestInstance.keypoints test); [done|simpl; lia].
  - assert (2 ^ 32 < 2 ^ 53) by done. lia.
  - by rewrite div_diag.
Qed.

(** X11.  For a test without keypoints the result has no keypoint result,
    coverage_pct NaN and no rci_coverage, whatever the previous session; if
    the profile resolves z_coverage is NaN and the label is the lowest one
    ("Abaixo do esperado"), otherwise z_coverage is 0 and the label tells
    that normative data is unavailable. *)
Theorem scoreSession_without_keypoints env test recallText t prev :
  TestInstance.keypoints test = [] ->
  let r := scoreSession env test recallText t prev in
  SessionResult.keypoint_results r = []
  /\ SessionResult.coverage_pct r = Num.NaN
  /\ SessionResult.rci_coverage r = None
  /\ (SessionResult.z_coverage r, SessionResult.qualitative_label r)
     = match profile test with
       | Some _ => (Num.NaN, Spec.below_expected_range)
       | None => (Num.zero, Spec.normative_data_unavailable)
       end.
Proof.
  intros Hk r. subst r.
  rewrite scoreSession_coverage_pct, scoreSession_rci_coverage,
    scoreSession_z_coverage, scoreSession_qualitative_label.
  rewrite (coveragePct_no_keypoints _ _ Hk).
  split; [|split; [done|split]].
  - change (SessionResult.keypoint_results _)
      with (keypointResults test recallText).
    unfold keypointResults. by rewrite Hk.
  - by destruct (profile test), prev.
  - by destruct (profile test).
Qed.
End ScoreExtras.

(** ** The tokenizer on ASCII text *)

Section TokenizerExtras.
Context {builtins : StringBuiltins}.
Implicit Types (text s : jsstring) (language : Language).

(** X1.  Every token that [tokenize] returns is longer than two code units,
    is made of ASCII letters, digits and underscores only, and is not a stop
    word of the set selected by the language ([STOPWORDS_EN_US] for en-US,
    [STOPWORDS_PT_BR] for every other language). *)
Theorem tokenize_token_shape text language tok :
  tok ∈ tokenize text language ->
  (2 < length tok)%nat
  /\ Forall (fun c => is_word c = true) tok
  /\ tok ∉ match language with
           | en_US => STOPWORDS_EN_US
           | _ => STOPWORDS_PT_BR
           end.
Proof.
  intros Htok. split; [|split].
  - unfold tokenize in Htok. apply list_elem_of_filter in Htok. tauto.
  - apply Forall_forall. intros c Hc.
    by apply (tokenize_word_chars text language tok).
  - unfold tokenize in Htok. apply list_elem_of_filter in Htok. tauto.
Qed.

Lemma ascii_lower_ascii s :
  Forall (fun c => (c < 128)%N) s ->
  Forall (fun c => (c < 128)%N) (map ascii_lower s).
Proof.
  intros H. apply Forall_map. eapply Forall_impl; [exact H|].
  intros c Hc. simpl in *. unfold ascii_lower, is_upper.
  destruct (N.leb_spec 65 c), (N.leb_spec c 90); simpl; lia.
Qed.

Lemma filter_combining_ascii s :
  Forall (fun c => (c < 128)%N) s ->
  List.filter (fun c => negb (is_combining c)) s = s.
Proof.
  induction 1 as [|c s Hc _ IH]; simpl; [done|].
  rewrite IH. unfold is_combining.
  destruct (N.leb_spec 768 c); [lia|done].
Qed.

(** On ASCII text the tokenizer is the chain of its regular expressions. *)
Lemma tokenize_ascii text language :
  Forall (fun c => (c < 128)%N) text ->
  tokenize text language
  = filter (fun t : jsstring =>
              (t ∉ match language with
                   | en_US => STOPWORDS_EN_US
                   | _ => STOPWORDS_PT_BR
                   end) /\ (2 < length t)%nat)
      (filter (fun t : jsstring => (0 < length t)%nat)
         (split_ws (List.filter is_word_or_space (map ascii_lower text)))).
Proof.
  intros H. unfold tokenize.
  rewrite toLowerCase_ascii by done.
  rewrite normalizeNFD_ascii by by apply ascii_lower_ascii.
  rewrite filter_combining_ascii by by apply ascii_lower_ascii.
  by destruct language.
Qed.

(** X2.  On ASCII text the tokens depend only on the lower-cased letters,
    digits, underscores and white space: two texts that agree once they are
    lower-cased and stripped of every other character have the same tokens.
    Punctuation is deleted, not replaced by a space, so it glues the words
    around it. *)
Theorem tokenize_case_and_punctuation text1 text2 language :
  Forall (fun c => (c < 128)%N) text1 ->
  Forall (fun c => (c < 128)%N) text2 ->
  List.filter is_word_or_space (map ascii_lower text1)
  = List.filter is_word_or_space (map ascii_lower text2) ->
  tokenize text1 language = tokenize text2 language.
Proof. intros H1 H2 E. by rewrite !tokenize_ascii, E. Qed.

Lemma ascii_lower_word c : is_word c = false -> ascii_lower c = c.
Proof.
  unfold is_word, ascii_lower. destruct (is_upper c); [done|done].
Qed.

(** X3.  An ASCII text without a letter, digit or underscore (the empty
    text, white space, punctuation) has no token. *)
Theorem tokenize_without_word_characters text language :
  Forall (fun c => (c < 128)%N /\ is_word c = false) text ->
  tokenize text language = [].
Proof.
  intros H. rewrite tokenize_ascii
    by (eapply Forall_impl; [exact H|]; by intros c [? _]).
  set (s := List.filter _ _).
  assert (Forall (fun c => is_space c = true) s) as Hs.
  { subst s. apply Forall_forall. intros c Hc.
    apply list_elem_of_In, filter_In in Hc as [Hc Hw].
    apply in_map_iff in Hc as (c0 & <- & Hc0).
    apply list_elem_of_In in Hc0.
    rewrite Forall_forall in H. destruct (H c0 Hc0) as [_ Hnw].
    rewrite ascii_lower_word in * by done.
    unfold is_word_or_space in Hw. by rewrite Hnw in Hw. }
  assert (filter (fun t : jsstring => (0 < length t)%nat) (split_ws s) = [])
    as ->; [|done].
  apply elem_of_nil_inv. intros p Hp.
  apply list_elem_of_filter in Hp as [Hlen Hp].
  destruct p as [|c p]; [simpl in Hlen; lia|].
  destruct (split_go_pieces s false (c :: p) c Hp) as [Hin Hsp]; [by left|].
  rewrite Forall_forall in Hs. specialize (Hs c Hin). congruence.
Qed.
End TokenizerExtras.

(** ** The session history *)

Section Storage.
Context {host : StorageHost}.
Implicit Types (w : World) (s : SessionResult.t) (ss : list SessionResult.t).

Lemma getSessions_localStorage w :
  localStorage (getSessions w).2 = localStorage w.
Proof.
  unfold getSessions.
  destruct (localStorage w !! STORAGE_KEY) as [[|c raw]|]; try done.
  by destruct (JSON_parse (c :: raw)).
Qed.

Lemma getSessions_stored w ss :
  localStorage w !! STORAGE_KEY = Some (JSON_stringify ss) ->
  forallb json_stable ss = true ->
  (getSessions w).1 = ss.
Proof.
  intros E Hs. unfold getSessions. rewrite E.
  pose proof (JSON_stringify_nonempty ss) as Hne.
  destruct (JSON_stringify ss) as [|c raw] eqn:Et; [done|].
  rewrite <- Et, JSON_parse_stringify by done. done.
Qed.

Lemma getLatestSession_head w : (getLatestSession w).1 = head (getSessions w).1.
Proof. unfold getLatestSession. by destruct (getSessions w). Qed.

(** X14.  When the key is absent, holds the empty string, or holds a text
    that [JSON.parse] rejects, [getSessions] returns the empty list and
    [getLatestSession] returns nothing; the storage is left as it is. *)
Theorem getSessions_unreadable w :
  localStorage w !! STORAGE_KEY = None
  \/ localStorage w !! STORAGE_KEY = Some ([] : jsstring)
  \/ (exists raw, localStorage w !! STORAGE_KEY = Some raw
                   /\ JSON_parse raw = None) ->
  (getSessions w).1 = []
  /\ (getLatestSession w).1 = None
  /\ localStorage (getSessions w).2 = localStorage w.
Proof.
  intros H.
  assert ((getSessions w).1 = []) as E.
  { unfold getSessions. destruct H as [-> | [-> | (raw & -> & Hp)]]; try done.
    destruct raw; [done|]. by rewrite Hp. }
  split; [done|]. split; [|apply getSessions_localStorage].
  by rewrite getLatestSession_head, E.
Qed.

Lemma saveSession_localStorage s w :
  localStorage (saveSession s w)
  = if setItem_throws (localStorage w) STORAGE_KEY
         (JSON_stringify (s :: (getSessions w).1))
    then localStorage w
    else <[STORAGE_KEY := JSON_stringify (s :: (getSessions w).1)]>
           (localStorage w).
Proof.
  unfold saveSession. pose proof (getSessions_localStorage w) as E.
  destruct (getSessions w) as [existing w1]. simpl in *. rewrite E.
  by destruct (setItem_throws _ _ _).
Qed.

(** A successful write is read back with the new session in front. *)
Lemma saveSession_prepends s w :
  json_stable s = true ->
  forallb json_stable (getSessions w).1 = true ->
  setItem_throws (localStorage w) STORAGE_KEY
    (JSON_stringify (s :: (getSessions w).1)) = false ->
  (getSessions (saveSession s w)).1 = s :: (getSessions w).1.
Proof.
  intros Hs Hold Hq. apply getSessions_stored.
  - by rewrite saveSession_localStorage, Hq, lookup_insert_eq.
  - simpl. by rewrite Hs, Hold.
Qed.


(** X15.  When the write succeeds, [saveSession] puts the session in front
    of the history that [getSessions] read before, and [getLatestSession]
    then returns that session (for sessions that JSON represents
    faithfully).  A history that could not be read counts as empty, so the
    new session replaces it. *)
Theorem saveSession_then_read s w :
  json_stable s = true ->
  forallb json_stable (getSessions w).1 = true ->
  setItem_throws (localStorage w) STORAGE_KEY
    (JSON_stringify (s :: (getSessions w).1)) = false ->
  (getSessions (saveSession s w)).1 = s :: (getSessions w).1
  /\ (getLatestSession (saveSession s w)).1 = Some s.
Proof.
  intros Hs Hold Hq.
  pose proof (saveSession_prepends s w Hs Hold Hq) as E.
  split; [done|]. by rewrite getLatestSession_head, E.
Qed.


(** X17.  When [setItem] throws, [saveSession] does not fail: it leaves the
    storage and the history unchanged and writes "Failed to save session"
    to the console. *)
Theorem saveSession_failure s w :
  setItem_throws (localStorage w) STORAGE_KEY
    (JSON_stringify (s :: (getSessions w).1)) = true ->
  localStorage (saveSession s w) = localStorage w
  /\ (getSessions (saveSession s w)).1 = (getSessions w).1
  /\ last (console (saveSession s w)) = Some "Failed to save session"%string.
Proof.
  intros Hq.
  assert (localStorage (saveSession s w) = localStorage w) as E
    by (by rewrite saveSession_localStorage, Hq).
  split; [done|]. split.
  - unfold getSessions. rewrite E.
    destruct (localStorage w !! STORAGE_KEY) as [[|c raw]|]; try done.
    by destruct (JSON_parse (c :: raw)).
  - unfold saveSession. pose proof (getSessions_localStorage w) as E'.
    destruct (getSessions w) as [existing w1]. simpl in *.
    rewrite E', Hq. simpl. apply last_snoc.
Qed.

(** X18.  After [clearSessions] the history is empty and there is no latest
    session, whatever was stored under the key; nothing is logged, and
    clearing again changes nothing. *)
Theorem clearSessions_empties w :
  (getSessions (clearSessions w)).1 = []
  /\ (getLatestSession (clearSessions w)).1 = None
  /\ console (clearSessions w) = console w
  /\ clearSessions (clearSessions w) = clearSessions w.
Proof.
  assert ((getSessions (clearSessions w)).1 = []) as E.
  { unfold getSessions, clearSessions. simpl. by rewrite lookup_delete_eq. }
  split; [done|]. split; [by rewrite getLatestSession_head, E|].
  split; [done|]. unfold clearSessions. simpl. f_equal.
  apply delete_id. apply lookup_delete_eq.
Qed.

(** X19.  The service touches a single key of [localStorage]: saving,
    clearing and reading leave the value of every other key (the theme of
    the application, for one) unchanged. *)
Theorem storage_other_keys k s w :
  k <> STORAGE_KEY ->
  localStorage (saveSession s w) !! k = localStorage w !! k
  /\ localStorage (clearSessions w) !! k = localStorage w !! k
  /\ localStorage (getSessions w).2 !! k = localStorage w !! k
  /\ localStorage (getLatestSession w).2 !! k = localStorage w !! k.
Proof.
  intros Hk. split; [|split; [|split]].
  - rewrite saveSession_localStorage.
    destruct (setItem_throws _ _ _); [done|]. by rewrite lookup_insert_ne.
  - unfold clearSessions. simpl. by rewrite lookup_delete_ne.
  - by rewrite getSessions_localStorage.
  - unfold getLatestSession. pose proof (getSessions_localStorage w) as E.
    destruct (getSessions w). simpl in *. by rewrite E.
Qed.
End Storage.

(** ** Optional scores, submissions and the chart *)

Section Flow.
Context {builtins : StringBuiltins} {host : StorageHost}.
Implicit Types (env : Ambient) (test : TestInstance.t) (recallText : jsstring)
  (t : number) (prev : option SessionResult.t) (w : World).

(** X12.  z_wpm is present with the value v exactly when the profile
    resolves, the unrounded score (wpm_effective - mean_wpm) / sd_wpm is
    neither 0 nor NaN, and v is that score rounded to two decimals. *)
Theorem z_wpm_value env test recallText t prev v :
  SessionResult.z_wpm (scoreSession env test recallText t prev) = Some v
  <-> exists p,
        profile test = Some p
        /\ let raw :=
             Num.div
               (Num.sub (wpmEffective test t) (NormativeProfile.mean_wpm p))
               (NormativeProfile.sd_wpm p) in
           Num.truthy raw = true /\ v = Num.toFixed2 raw.
Proof.
  rewrite scoreSession_z_wpm. unfold zWpm, fixed2_if_truthy.
  destruct (profile test) as [p|]; simpl.
  - destruct (Num.truthy _) eqn:E.
    + split; [intros [= <-]; by exists p|].
      by intros (p' & [= <-] & _ & ->).
    + split; [done|]. intros (p' & [= <-] & H & _). congruence.
  - split; [done|by intros (p' & ? & _)].
Qed.

(** X13.  rci_coverage is present with the value v exactly when the
    profile resolves, a previous session was passed, the unrounded index
    (coverage - previous coverage_pct) / s_diff is neither 0 nor NaN, and v
    is that index rounded to two decimals. *)
Theorem rci_coverage_value env test recallText t prev v :
  SessionResult.rci_coverage (scoreSession env test recallText t prev)
  = Some v
  <-> exists p s,
        profile test = Some p /\ prev = Some s
        /\ let raw :=
             Num.div
               (Num.sub (coveragePct test recallText)
                        (SessionResult.coverage_pct s))
               (sDiff p) in
           Num.truthy raw = true /\ v = Num.toFixed2 raw.
Proof.
  rewrite scoreSession_rci_coverage. unfold rciCoverage, fixed2_if_truthy.
  destruct (profile test) as [p|], prev as [s|]; simpl;
    try (split; [done|by intros (? & ? & ? & ? & _)]).
  destruct (Num.truthy _) eqn:E.
  - split; [intros [= <-]; by exists p, s|].
    by intros (p' & s' & [= <-] & [= <-] & _ & ->).
  - split; [done|]. intros (p' & s' & [= <-] & [= <-] & H & _). congruence.
Qed.

Lemma getSessions_reads_storage w w' :
  localStorage w = localStorage w' -> (getSessions w).1 = (getSessions w').1.
Proof.
  intros E. unfold getSessions. rewrite E.
  destruct (localStorage w' !! STORAGE_KEY) as [[|c raw]|]; try done.
  by destruct (JSON_parse (c :: raw)).
Qed.

Lemma saveSession_reads_storage s w w' :
  localStorage w = localStorage w' ->
  localStorage (saveSession s w) = localStorage (saveSession s w').
Proof.
  intros E. rewrite !saveSession_localStorage.
  by rewrite (getSessions_reads_storage w w' E), E.
Qed.

(** X20.  A submission scores the recall against the latest session of the
    history and puts its result in front of the history; when that result
    is stored (the write succeeds and JSON represents the sessions
    faithfully), the next submission is scored against it. *)
Theorem handleSubmitRecall_chain env1 env2 test1 test2 recall1 recall2
    t1 t2 w :
  let r1 :=
    scoreSession env1 test1 recall1 t1 (getLatestSession w).1 in
  json_stable r1 = true ->
  forallb json_stable (getSessions w).1 = true ->
  setItem_throws (localStorage w) STORAGE_KEY
    (JSON_stringify (r1 :: (getSessions w).1)) = false ->
  let first := handleSubmitRecall env1 test1 recall1 t1 w in
  first.1 = r1
  /\ (getSessions first.2).1 = r1 :: (getSessions w).1
  /\ (handleSubmitRecall env2 test2 recall2 t2 first.2).1
     = scoreSession env2 test2 recall2 t2 (Some r1).
Proof.
  intros r1 Hs Hold Hq first.
  assert (first = (r1, saveSession r1 (getLatestSession w).2)) as Ef.
  { subst first r1. unfold handleSubmitRecall.
    by destruct (getLatestSession w). }
  assert (localStorage (getLatestSession w).2 = localStorage w) as El.
  { unfold getLatestSession. pose proof (getSessions_localStorage w) as E.
    by destruct (getSessions w). }
  assert ((getSessions first.2).1 = r1 :: (getSessions w).1) as Eh.
  { rewrite Ef. simpl.
    rewrite (getSessions_reads_storage _ (saveSession r1 w))
      by by apply saveSession_reads_storage.
    by apply saveSession_prepends. }
  split; [by rewrite Ef|]. split; [done|].
  unfold handleSubmitRecall at 1.
  pose proof (getLatestSession_head first.2) as Eh'.
  destruct (getLatestSession first.2) as [previous w2]. simpl in *.
  by rewrite Eh', Eh.
Qed.

End Flow.

(** ** Bounds of the coverage percentage *)

Section RoundingBounds.
Import Num.

Lemma shr_1_div2 mrs : 0 <= shr_m mrs -> shr_m (shr_1 mrs) = shr_m mrs / 2.
Proof.
  destruct mrs as [[|[p|p|]|p] r s]; simpl; intros H; try done; try lia.
  - rewrite Pos2Z.inj_xI. apply (Z.div_unique _ _ _ 1); lia.
  - rewrite Pos2Z.inj_xO. apply (Z.div_unique _ _ _ 0); lia.
Qed.

Lemma iter_shr_1_div p : forall mrs,
  0 <= shr_m mrs ->
  shr_m (SpecFloat.iter_pos shr_1 p mrs) = shr_m mrs / 2 ^ Z.pos p.
Proof.
  induction p as [p IH|p IH|]; intros mrs Hm; simpl SpecFloat.iter_pos.
  - assert (0 <= shr_m (shr_1 mrs)) by by apply shr_1_nonneg.
    assert (0 <= shr_m (SpecFloat.iter_pos shr_1 p (shr_1 mrs)))
      by (apply (iter_pos_invariant (fun r => 0 <= shr_m r));
          [apply shr_1_nonneg|done]).
    assert (2 ^ Z.pos p~1 = 2 * 2 ^ Z.pos p * 2 ^ Z.pos p) as ->.
    { rewrite Pos2Z.inj_xI, <- Z.mul_assoc, <- Z.pow_add_r by lia.
      rewrite <- Z.pow_succ_r by lia. f_equal. lia. }
    assert (0 < 2 ^ Z.pos p) by (apply Z.pow_pos_nonneg; lia).
    rewrite !IH, shr_1_div2 by done.
    rewrite !Z.div_div by lia. f_equal. ring.
  - assert (0 <= shr_m (SpecFloat.iter_pos shr_1 p mrs))
      by (apply (iter_pos_invariant (fun r => 0 <= shr_m r));
          [apply shr_1_nonneg|done]).
    assert (2 ^ Z.pos p~0 = 2 ^ Z.pos p * 2 ^ Z.pos p) as ->.
    { rewrite Pos2Z.inj_xO, <- Z.pow_add_r by lia. f_equal. lia. }
    assert (0 < 2 ^ Z.pos p) by (apply Z.pow_pos_nonneg; lia).
    rewrite !IH by done. rewrite !Z.div_div by lia. done.
  - rewrite shr_1_div2 by done. done.
Qed.

(** What [shr_fexp] returns: the mantissa shifted to the exponent
    max(e, fexp(digits m + e)). *)
Lemma shr_fexp_spec m e l :
  0 <= m ->
  let e' := Z.max e (fexp prec emax (Zdigits2 m + e)) in
  (shr_fexp prec emax m e l).2 = e'
  /\ shr_m (shr_fexp prec emax m e l).1 = m / 2 ^ (e' - e).
Proof.
  intros Hm e'. subst e'. unfold shr_fexp, shr.
  assert (shr_m (shr_record_of_loc m l) = m) as E0 by (by destruct l as [|[]]).
  destruct (fexp prec emax (Zdigits2 m + e) - e) as [|k|k] eqn:Ek; simpl.
  - rewrite Z.max_l by lia. rewrite Z.sub_diag, Z.div_1_r. done.
  - rewrite Z.max_r by lia. split; [lia|].
    rewrite iter_shr_1_div by (rewrite E0; done). rewrite E0.
    f_equal. f_equal. lia.
  - rewrite Z.max_l by lia. rewrite Z.sub_diag, Z.div_1_r. done.
Qed.

Lemma Zdigits2_bound m k : 0 <= m < 2 ^ k -> 0 <= k -> Zdigits2 m <= k.
Proof.
  intros [Hm Hlt] Hk. destruct m as [|p|p]; [done| |lia].
  simpl. by apply digits2_pos_bound.
Qed.

Lemma round_nearest_even_bounds m l :
  m <= round_nearest_even m l <= m + 1.
Proof. destruct l as [|[]]; simpl; try lia. destruct (Z.even m); lia. Qed.

(** A value below c / 2^sc is rounded to a value that does not exceed it,
    at an exponent that does not exceed the one of the bound. *)
Lemma binary_round_aux_below m e l c sc Dc :
  0 <= m -> 0 < c < 2 ^ Dc -> 0 <= sc -> 0 <= Dc ->
  - 1021 <= Dc - sc -> Dc - sc - 53 + sc <= 0 ->
  e <= Dc - sc - 53 ->
  m < c * 2 ^ (- e - sc) ->
  binary_round_aux prec emax false m e l = S754_zero false
  \/ exists m' e',
       binary_round_aux prec emax false m e l = S754_finite false m' e'
       /\ e' <= Dc - sc - 53 /\ Z.pos m' <= c * 2 ^ (- e' - sc).
Proof.
  intros Hm Hc Hsc HDc Hmin Hneg He Hlt.
  set (ec := Dc - sc - 53) in *.
  assert (forall x, x <= Dc - sc -> fexp prec emax x <= ec) as Hfexp
    by (intros x Hx; unfold fexp, SpecFloat.emin, prec, emax; lia).
  assert (forall m0 e0, 0 <= m0 -> e0 <= ec -> m0 <= c * 2 ^ (- e0 - sc) ->
            Zdigits2 m0 + e0 <= Dc - sc) as Hdig.
  { intros m0 e0 Hm0 He0 Hb.
    assert (Zdigits2 m0 <= Dc + (- e0 - sc)); [|lia].
    apply Zdigits2_bound; [|lia]. split; [done|].
    rewrite Z.pow_add_r by lia.
    assert (0 < 2 ^ (- e0 - sc)) by (apply Z.pow_pos_nonneg; lia). nia. }
  unfold binary_round_aux.
  destruct (shr_fexp_spec m e l Hm) as [E1 M1].
  destruct (shr_fexp prec emax m e l) as [mrs1 e1]. simpl in E1, M1.
  rewrite <- E1 in M1.
  set (m1 := round_nearest_even (shr_m mrs1) (loc_of_shr_record mrs1)).
  assert (e1 <= ec) as He1.
  { rewrite E1. apply Z.max_lub; [lia|]. apply Hfexp, Hdig; lia. }
  assert (e <= e1) as Hee1 by (rewrite E1; lia).
  assert (0 <= shr_m mrs1) as Hm1pos by (rewrite M1; apply Z.div_pos; [done|apply Z.pow_pos_nonneg; lia]).
  assert (shr_m mrs1 < c * 2 ^ (- e1 - sc)) as Hb1.
  { rewrite M1. apply Z.div_lt_upper_bound; [apply Z.pow_pos_nonneg; lia|].
    rewrite (Z.mul_comm (2 ^ _)), <- Z.mul_assoc, <- Z.pow_add_r by lia.
    replace (- e1 - sc + (e1 - e)) with (- e - sc) by lia. done. }
  assert (0 <= m1 /\ m1 <= c * 2 ^ (- e1 - sc)) as [Hm1 Hb1'].
  { subst m1.
    pose proof (round_nearest_even_bounds (shr_m mrs1) (loc_of_shr_record mrs1)).
    lia. }
  destruct (shr_fexp_spec m1 e1 loc_Exact Hm1) as [E2 M2].
  destruct (shr_fexp prec emax m1 e1 loc_Exact) as [mrs2 e2]. simpl in E2, M2.
  rewrite <- E2 in M2.
  assert (e2 <= ec) as He2.
  { rewrite E2. apply Z.max_lub; [lia|]. apply Hfexp, Hdig; lia. }
  assert (e1 <= e2) as He12 by (rewrite E2; lia).
  assert (shr_m mrs2 <= c * 2 ^ (- e2 - sc)) as Hb2.
  { rewrite M2. apply Z.div_le_upper_bound; [apply Z.pow_pos_nonneg; lia|].
    rewrite (Z.mul_comm (2 ^ _)), <- Z.mul_assoc, <- Z.pow_add_r by lia.
    replace (- e2 - sc + (e2 - e1)) with (- e1 - sc) by lia. done. }
  destruct (shr_m mrs2) as [|p|p] eqn:Ep.
  - by left.
  - right. exists p, e2.
    destruct (Z.leb_spec e2 (emax - prec)); [done|].
    unfold emax, prec in *. lia.
  - assert (0 <= m1 / 2 ^ (e2 - e1))
      by (apply Z.div_pos; [done|apply Z.pow_pos_nonneg; lia]).
    lia.
Qed.

Lemma canonical_mantissa_range m :
  Z.pos (digits2_pos m) = 53 -> 2 ^ 52 <= Z.pos m < 2 ^ 53.
Proof.
  rewrite digits2_pos_size. intros Hd.
  pose proof (Pos.size_le m) as Hle. pose proof (Pos.size_gt m) as Hgt.
  apply Pos2Z.pos_le_pos in Hle. apply Pos2Z.pos_lt_pos in Hgt.
  rewrite Pos2Z.inj_pow in Hle, Hgt. rewrite Hd in Hle, Hgt.
  change (2 ^ 53) with (2 * 2 ^ 52) in Hle. lia.
Qed.

(** A proper fraction of two counts below 2^32 is rounded to a number
    that stays below 1 - 2^-33. *)
Lemma div_proper_fraction h n :
  Z.pos h < Z.pos n -> Z.pos n < 2 ^ 32 ->
  div (of_Z (Z.pos h)) (of_Z (Z.pos n)) = S754_zero false
  \/ exists m e,
       div (of_Z (Z.pos h)) (of_Z (Z.pos n)) = S754_finite false m e
       /\ e <= -53 /\ Z.pos m <= (2 ^ 33 - 1) * 2 ^ (- e - 33).
Proof.
  intros Hhn Hn.
  assert (2 ^ 32 < 2 ^ 53) as H3253 by done.
  destruct (of_Z_small h ltac:(lia)) as (m1 & e1 & -> & He1 & Hv1 & Hd1).
  destruct (of_Z_small n ltac:(lia)) as (m2 & e2 & -> & He2 & Hv2 & Hd2).
  pose proof (canonical_mantissa_range m1 Hd1) as Hr1.
  pose proof (canonical_mantissa_range m2 Hd2) as Hr2.
  assert (0 < 2 ^ (- e1)) as HA by (apply Z.pow_pos_nonneg; lia).
  assert (0 < 2 ^ (- e2)) as HB by (apply Z.pow_pos_nonneg; lia).
  assert (e1 <= e2) as He12.
  { destruct (Z.le_gt_cases e1 e2) as [|Hgt]; [done|exfalso].
    assert (2 ^ (- e2) = 2 ^ (e1 - e2) * 2 ^ (- e1)) as Hsplit
      by (rewrite <- Z.pow_add_r by lia; f_equal; lia).
    assert (2 ^ 1 <= 2 ^ (e1 - e2)) by (apply Z.pow_le_mono_r; lia).
    change (2 ^ 1) with 2 in *. change (2 ^ 53) with (2 * 2 ^ 52) in *. nia. }
  unfold div, SFdiv, SFdiv_core_binary. simpl Zdigits2. rewrite Hd1, Hd2.
  assert (Z.min (fexp prec emax (53 + e1 - (53 + e2))) (e1 - e2)
          = e1 - e2 - 53) as ->
    by (unfold fexp, SpecFloat.emin, prec, emax; lia).
  assert (e1 - e2 - (e1 - e2 - 53) = 53) as -> by lia.
  rewrite div_eucl_div_mod, Z.shiftl_mul_pow2 by lia.
  simpl xorb.
  apply (binary_round_aux_below _ _ _ (2 ^ 33 - 1) 33 33); try done; try lia.
  - apply Z.div_pos; lia.
  - apply Z.div_lt_upper_bound; [lia|].
    replace (- (e1 - e2 - 53) - 33) with (e2 - e1 + 20) by lia.
    assert (2 ^ (- e2) * 2 ^ (e2 - e1 + 20) = 2 ^ 20 * 2 ^ (- e1)) as HC.
    { rewrite <- !Z.pow_add_r by lia. f_equal. lia. }
    rewrite Hv1, Hv2.
    replace (Z.pos n * 2 ^ (- e2) * ((2 ^ 33 - 1) * 2 ^ (e2 - e1 + 20)))
      with (Z.pos n * (2 ^ 33 - 1) * (2 ^ (- e2) * 2 ^ (e2 - e1 + 20)))
      by ring.
    rewrite HC.
    change (2 ^ 53) with (2 ^ 33 * 2 ^ 20).
    assert (Z.pos h * 2 ^ 33 < Z.pos n * (2 ^ 33 - 1)) by lia.
    assert (0 < 2 ^ 20) by done.
    nia.
Qed.

(** One hundred times such a fraction does not exceed 100. *)
Lemma mul_100_below m e :
  e <= -53 -> Z.pos m <= (2 ^ 33 - 1) * 2 ^ (- e - 33) ->
  ge (of_Z 100) (mul (S754_finite false m e) (of_Z 100)) = true.
Proof.
  intros He Hm.
  change (of_Z 100) with (S754_finite false 7036874417766400 (-46)).
  assert (Z.pos 7036874417766400 = 100 * 2 ^ 46) as HM by reflexivity.
  revert HM. generalize 7036874417766400%positive. intros M HM.
  unfold mul, SFmul. simpl xorb.
  assert (0 < 2 ^ (- e - 33)) as HA by (apply Z.pow_pos_nonneg; lia).
  destruct (binary_round_aux_below (Z.pos (m * M))
              (e + -46) loc_Exact 100 0 7)
    as [->|(m' & e' & -> & He' & Hm')]; try done; try lia.
  - replace (- (e + -46) - 0) with ((- e - 33) + 79) by lia.
    rewrite Z.pow_add_r by lia. rewrite Pos2Z.inj_mul, HM.
    change (2 ^ 79) with (2 ^ 33 * 2 ^ 46).
    assert (0 < 2 ^ 46) by done.
    assert (Z.pos m * 100 < 100 * (2 ^ (- e - 33) * 2 ^ 33)) by lia.
    nia.
  - unfold ge, SFleb, SFcompare.
    destruct (Z.compare_spec e' (-46)) as [->| |]; [|done|lia].
    change (- -46 - 0) with 46 in Hm'. rewrite <- HM in Hm'.
    change (Pos.compare_cont Eq m' M) with (Z.pos m' ?= Z.pos M).
    destruct (Z.compare_spec (Z.pos m') (Z.pos M)); try done. lia.
Qed.

(** The percentage of [h] out of [n] lies between 0 and 100. *)
Lemma percentage_bounds h n :
  (h <= n)%nat -> (0 < n)%nat -> Z.of_nat n < 2 ^ 32 ->
  let pct := mul (div (of_nat h) (of_nat n)) (of_Z 100) in
  ge pct zero = true /\ ge (of_Z 100) pct = true.
Proof.
  intros Hhn Hn Hb pct. subst pct.
  assert (2 ^ 32 < 2 ^ 53) as H3253 by done.
  split.
  - apply sign_clear_ge_zero.
    change (of_Z 100) with (S754_finite false 7036874417766400 (-46)).
    apply mul_sign_clear.
    destruct (of_nat_finite n) as (m & e & ->); [done|lia|].
    apply div_sign_clear, of_Z_sign_clear. lia.
  - destruct (decide (h = 0%nat)) as [->|Hh0].
    { destruct (of_nat_finite n) as (m & e & ->); [done|lia|]. done. }
    destruct (decide (h = n)) as [->|Hne].
    { destruct (of_nat_finite n) as (m & e & ->); [done|lia|].
      rewrite div_diag. by vm_compute. }
    unfold of_nat.
    destruct (Z.of_nat h) as [|ph|ph] eqn:Eh; [lia| |lia].
    destruct (Z.of_nat n) as [|pn|pn] eqn:En; [lia| |lia].
    destruct (div_proper_fraction ph pn) as [->|(m & e & -> & He & Hm)];
      [lia|lia|done|].
    by apply mul_100_below.
Qed.
End RoundingBounds.

Section CoverageBounds.
Context {builtins : StringBuiltins}.

Lemma hitCount_le test recallText :
  (hitCount test recallText <= length (TestInstance.keypoints test))%nat.
Proof.
  unfold hitCount.
  etransitivity; [apply List.filter_length_le|].
  unfold keypointResults. by rewrite length_map.
Qed.

(** X22.  For a test with at least one keypoint (and fewer than 2^32),
    coverage_pct is a number between 0 and 100, whatever the recall: it is
    never NaN, never negative and never above 100, rounding included. *)
Theorem coverage_pct_bounds env test recallText t prev :
  TestInstance.keypoints test <> [] ->
  Z.of_nat (length (TestInstance.keypoints test)) < 2 ^ 32 ->
  let r := scoreSession env test recallText t prev in
  Num.ge (SessionResult.coverage_pct r) Num.zero = true
  /\ Num.ge (Num.of_Z 100) (SessionResult.coverage_pct r) = true.
Proof.
  intros Hne Hlen r. subst r. rewrite scoreSession_coverage_pct.
  unfold coveragePct. apply percentage_bounds; [apply hitCount_le| |done].
  destruct (TestInstance.keypoints test); [done|simpl; lia].
Qed.
End CoverageBounds.

(** ** Bounds of the reading speed *)

Section ReadingSpeedBounds.
Context {builtins : StringBuiltins}.
Implicit Types (env : Ambient) (test : TestInstance.t) (recallText : jsstring)
  (t : number) (prev : option SessionResult.t).

Lemma count_words_le b s : (Spec.count_words b s <= length s)%nat.
Proof.
  revert b. induction s as [|c s IH]; intros b; simpl; [done|].
  destruct (is_space c); [specialize (IH false); lia|].
  specialize (IH true). destruct b; lia.
Qed.

(** The time floor leaves a strictly positive divisor, finite or infinite,
    unless the time is NaN. *)
Lemma safeTime_positive t :
  Num.is_nan t = false ->
  (exists m e, safeTime t = S754_finite false m e)
  \/ safeTime t = S754_infinity false.
Proof.
  destruct t as [s|s| |s m e]; try done; intros _; unfold safeTime.
  - left. destruct s; vm_compute; eauto.
  - destruct s; [left; vm_compute; eauto|by right].
  - left. destruct (Num.lt (S754_finite s m e) (Num.of_Z 5)) eqn:E.
    + vm_compute; eauto.
    + destruct s; [|eauto]. by vm_compute in E.
Qed.

Lemma wpmEffective_sign_clear test t :
  (0 < Spec.word_count (TestInstance.passage test))%nat ->
  Z.of_nat (length (TestInstance.passage test)) < 2 ^ 53 ->
  Num.is_nan t = false -> Num.sign_clear (wpmEffective test t) = true.
Proof.
  intros Hw Hlen Ht. unfold wpmEffective.
  rewrite passageWordCount_words by done.
  pose proof (count_words_le false (TestInstance.passage test)) as Hle.
  fold (Spec.word_count (TestInstance.passage test)) in Hle.
  destruct (of_nat_finite (Spec.word_count (TestInstance.passage test)))
    as (mw & ew & ->); [done|lia|].
  destruct (safeTime_positive t Ht) as [(m & e & ->)| ->]; [|done].
  apply round_sign_clear.
  change (Num.of_Z 60) with (S754_finite false 8444249301319680 (-47)).
  by apply mul_sign_clear, div_sign_clear.
Qed.

(** X23.  For a passage with at least one word, wpm_effective is
    round(word_count / max(time, 5) × 60) for every elapsed time, NaN and
    the infinities included, where word_count counts the
    white-space-delimited words of the raw passage.  It is not negative
    unless the time is NaN (for a passage within the length of a string),
    and a passage of 100 words gives 1200 for every time under the floor. *)
Theorem wpm_effective_formula env test recallText t prev :
  (0 < Spec.word_count (TestInstance.passage test))%nat ->
  let r := scoreSession env test recallText t prev in
  SessionResult.wpm_effective r
  = Spec.wpm_effective (TestInstance.passage test) t
  /\ (Z.of_nat (length (TestInstance.passage test)) < 2 ^ 53 ->
      Num.is_nan t = false ->
      Num.ge (SessionResult.wpm_effective r) Num.zero = true)
  /\ (Spec.word_count (TestInstance.passage test) = 100%nat ->
      Num.lt t (Num.of_Z 5) = true ->
      SessionResult.wpm_effective r = Num.of_Z 1200).
Proof.
  intros Hw r. subst r. rewrite scoreSession_wpm_effective.
  split; [|split].
  - unfold wpmEffective, Spec.wpm_effective.
    by rewrite passageWordCount_words, safeTime_max.
  - intros Hlen Ht. by apply sign_clear_ge_zero, wpmEffective_sign_clear.
  - intros H100 Ht. unfold wpmEffective, safeTime.
    rewrite passageWordCount_words, H100, Ht by done. by vm_compute.
Qed.
End ReadingSpeedBounds.

(** ** Instances of the properties above *)

(** A token of an English sentence. *)
Lemma tokenize_token_shape_witness : u "brain" ∉ STOPWORDS_EN_US.
Proof.
  apply (tokenize_token_shape (builtins := ascii_builtins)
           (u "The brain adapts") en_US (u "brain")).
  vm_compute. by left.
Defined.

(** Case and punctuation are ignored; the hyphen glues its neighbours. *)
Lemma tokenize_case_and_punctuation_witness :
  tokenize (builtins := ascii_builtins) (u "Well-Known, FACTS!") en_US
  = tokenize (builtins := ascii_builtins) (u "wellknown facts") en_US.
Proof.
  apply tokenize_case_and_punctuation.
  - vm_compute. repeat constructor.
  - vm_compute. repeat constructor.
  - vm_compute. reflexivity.
Defined.

(** White space and punctuation only. *)
Lemma tokenize_without_word_characters_witness :
  tokenize (builtins := ascii_builtins) (u " ?! ... -- ") pt_BR = [].
Proof.
  apply tokenize_without_word_characters. vm_compute. repeat constructor.
Defined.

(** The same recall said twice over, in another order. *)
Lemma calculateMatch_recall_set_witness :
  calculateMatch [u "memory"; u "sleep"; u "memory"]
                 [u "sleep"; u "consolidates"; u "memory"]
  = calculateMatch [u "sleep"; u "memory"]
                   [u "sleep"; u "consolidates"; u "memory"].
Proof.
  apply calculateMatch_recall_set. intros t.
  rewrite !elem_of_cons, !elem_of_nil. tauto.
Defined.

Lemma hit_needs_shared_token_witness :
  exists t,
    t ∈ [u "sleep"; u "consolidates"; u "memory"]
    /\ t ∈ [u "memory"; u "after"; u "sleep"].
Proof.
  apply hit_needs_shared_token. vm_compute. reflexivity.
Defined.

Lemma hit_when_all_tokens_recalled_witness :
  hit (calculateMatch [u "memory"; u "after"; u "sleep"]
                      [u "sleep"; u "memory"]) = true.
Proof.
  apply hit_when_all_tokens_recalled; [done|reflexivity|].
  intros t. rewrite !elem_of_cons, !elem_of_nil. tauto.
Defined.

(** The same keypoint texts in a test generated anew. *)
Lemma scoreSession_reads_id_and_text_witness :
  Examples.run Examples.test_five Examples.recall_four (Num.of_Z 40) None
  = Examples.run Samples.test_five_again Examples.recall_four
      (Num.of_Z 40) None.
Proof.
  apply (scoreSession_reads_id_and_text (builtins := ascii_builtins));
    vm_compute; reflexivity.
Defined.

(** The empty recall. *)
Lemma coverage_zero_without_overlap_witness :
  SessionResult.coverage_pct
    (Examples.run Examples.test_five [] (Num.of_Z 40) None) = Num.zero.
Proof.
  apply (coverage_zero_without_overlap (builtins := ascii_builtins)
           Examples.env Examples.test_five [] (Num.of_Z 40) None).
  - vm_compute. discriminate.
  - vm_compute. reflexivity.
  - intros kp tok _ _ H. vm_compute in H. by apply elem_of_nil in H.
Defined.

(** Three keypoints, all recalled. *)
Lemma coverage_full_when_all_hit_witness :
  SessionResult.coverage_pct
    (Examples.run Examples.test_three Examples.recall_three (Num.of_Z 40)
       None) = Num.of_Z 100.
Proof.
  apply (coverage_full_when_all_hit (builtins := ascii_builtins)
           Examples.env Examples.test_three Examples.recall_three
           (Num.of_Z 40) None).
  - vm_compute. discriminate.
  - vm_compute. reflexivity.
  - vm_compute. repeat constructor.
Defined.

Lemma scoreSession_without_keypoints_witness :
  SessionResult.coverage_pct
    (Examples.run Examples.test_no_keypoints Examples.recall_one
       (Num.of_Z 40) None) = Num.NaN.
Proof.
  apply (scoreSession_without_keypoints (builtins := ascii_builtins)
           Examples.env Examples.test_no_keypoints Examples.recall_one
           (Num.of_Z 40) None).
  reflexivity.
Defined.

(** Nothing stored yet. *)
Lemma getSessions_unreadable_witness :
  (getSessions (host := binary_host) Samples.fresh).1 = [].
Proof.
  apply (getSessions_unreadable (host := binary_host) Samples.fresh).
  left. reflexivity.
Defined.

Lemma saveSession_then_read_witness :
  (getLatestSession (host := binary_host)
     (saveSession (host := binary_host) Samples.first_session Samples.fresh)).1
  = Some Samples.first_session.
Proof.
  apply (saveSession_then_read (host := binary_host) Samples.first_session
           Samples.fresh).
  - vm_compute. reflexivity.
  - vm_compute. reflexivity.
  - exact eq_refl.
Defined.


(** A store that is full. *)
Lemma saveSession_failure_witness :
  localStorage
    (saveSession (host := Samples.full_host) Samples.first_session
       Samples.themed)
  = localStorage Samples.themed.
Proof.
  apply (saveSession_failure (host := Samples.full_host)
           Samples.first_session Samples.themed).
  exact eq_refl.
Defined.

(** The theme of the application survives a save. *)
Lemma storage_other_keys_witness :
  localStorage
    (saveSession (host := binary_host) Samples.first_session Samples.themed)
    !! u "theme"
  = localStorage Samples.themed !! u "theme".
Proof.
  apply (storage_other_keys (host := binary_host) (u "theme")
           Samples.first_session Samples.themed).
  intros E. vm_compute in E. discriminate E.
Defined.

(** Two submissions on a fresh page: the second is scored against the
    first. *)
Lemma handleSubmitRecall_chain_witness :
  (handleSubmitRecall (builtins := ascii_builtins) (host := binary_host)
     Examples.env Examples.test_five Examples.recall_four (Num.of_Z 40)
     (handleSubmitRecall (builtins := ascii_builtins) (host := binary_host)
        Examples.env Examples.test_six Examples.recall_three (Num.of_Z 40)
        Samples.fresh).2).1
  = scoreSession (builtins := ascii_builtins) Examples.env Examples.test_five
      Examples.recall_four (Num.of_Z 40)
      (Some
         (scoreSession (builtins := ascii_builtins) Examples.env
            Examples.test_six Examples.recall_three (Num.of_Z 40)
            (getLatestSession (host := binary_host) Samples.fresh).1)).
Proof.
  apply (handleSubmitRecall_chain (builtins := ascii_builtins)
           (host := binary_host) Examples.env Examples.env Examples.test_six
           Examples.test_five Examples.recall_three Examples.recall_four
           (Num.of_Z 40) (Num.of_Z 40) Samples.fresh).
  - vm_compute. reflexivity.
  - vm_compute. reflexivity.
  - exact eq_refl.
Defined.


(** Three keypoints, one of them recalled. *)
Lemma coverage_pct_bounds_witness :
  Num.ge (SessionResult.coverage_pct
            (Examples.run Examples.test_three Examples.recall_one
               (Num.of_Z 40) None)) Num.zero = true
  /\ Num.ge (Num.of_Z 100)
       (SessionResult.coverage_pct
          (Examples.run Examples.test_three Examples.recall_one
             (Num.of_Z 40) None)) = true.
Proof.
  apply (coverage_pct_bounds (builtins := ascii_builtins)
           Examples.env Examples.test_three Examples.recall_one
           (Num.of_Z 40) None).
  - vm_compute. discriminate.
  - vm_compute. reflexivity.
Defined.

(** A passage of 100 words read in 2 seconds. *)
Lemma wpm_effective_formula_witness :
  SessionResult.wpm_effective
    (Examples.run Examples.test_five Examples.recall_four (Num.of_Z 2) None)
  = Num.of_Z 1200
  /\ Num.ge (SessionResult.wpm_effective
               (Examples.run Examples.test_five Examples.recall_four
                  (Num.of_Z 2) None)) Num.zero = true.
Proof.
  assert (0 < Spec.word_count (TestInstance.passage Examples.test_five))%nat
    as Hw by (vm_compute; lia).
  destruct (wpm_effective_formula (builtins := ascii_builtins) Examples.env
              Examples.test_five Examples.recall_four (Num.of_Z 2) None Hw)
    as (_ & Hge & H1200).
  split.
  - apply H1200; reflexivity.
  - apply Hge; [vm_compute|]; reflexivity.
Defined.
